(** * Bug-Be-Gone: the diagnostic-driven repair loop of [universal_debugger.py]

    A shallow embedding of the repair core of [src/universal_debugger.py]:
    the indentation helpers, the block wrapper, the UnboundLocalError
    handler, [parse_error], [fix_error] and the loop of [main], followed by
    the properties of the design document that concern them.

    Conventions of the embedding.
    - Python [str] is [string]; the text is taken to be ASCII, one character
      per byte.  A line of a file keeps its line terminator, as
      [readlines] returns it.
    - [ERROR_DATABASE] is a finite map from the failure class to its ordered
      list of patterns.  The functions take it as a parameter; the entries
      that the concrete examples use are transcribed further down.
    - A regular expression is a term of [regex]; [re.search] is decided with
      Brzozowski derivatives.  Where the source reads the groups of a match,
      the leftmost match is computed by a dedicated scanner.
    - [print] is modelled by a list of events, so that what the program
      reports can be observed.
    - The target script on disk is a [world]: its text, whether it can be
      opened for reading and for writing, and how each of the next writes
      ends: it completes, [open] raises, or the write raises once the file
      has been emptied and some of the lines have reached it.  A write that
      raises inside [fix_error] is caught by the [except] clause of the
      loop over the patterns, which goes on with the file as that write
      left it. *)

From Stdlib Require Import String Ascii List Arith Lia Bool DecimalString.
From Stdlib Require Import DecimalNat DecimalFacts.
From stdpp Require Import base gmap strings list.
Import ListNotations.
Local Open Scope string_scope.
Local Open Scope list_scope.
Local Open Scope nat_scope.

(** ** Python string primitives *)

Module PyStr.

Definition LF : ascii := ascii_of_nat 10.
Definition CR : ascii := ascii_of_nat 13.
Definition NL : string := String LF "".
Definition DQ : ascii := ascii_of_nat 34.
Definition dq : string := String DQ "".

(** [str.isspace] on one ASCII character: TAB, LF, VT, FF, CR, the four
    separators 0x1c-0x1f and the space. *)
Definition is_space (c : ascii) : bool :=
  let n := nat_of_ascii c in
  ((9 <=? n) && (n <=? 13)) || ((28 <=? n) && (n <=? 32)).

Definition is_digit (c : ascii) : bool :=
  let n := nat_of_ascii c in (48 <=? n) && (n <=? 57).

(** The class [\w] on ASCII text: letters, digits and the underscore. *)
Definition is_word (c : ascii) : bool :=
  let n := nat_of_ascii c in
  is_digit c || ((65 <=? n) && (n <=? 90)) || ((97 <=? n) && (n <=? 122))
  || (n =? 95).

Definition len (s : string) : nat := String.length s.

Fixpoint rev_onto (s acc : string) : string :=
  match s with
  | EmptyString => acc
  | String c s' => rev_onto s' (String c acc)
  end.

Definition reverse (s : string) : string := rev_onto s "".

Fixpoint lstrip (s : string) : string :=
  match s with
  | EmptyString => ""
  | String c s' => if is_space c then lstrip s' else s
  end.

Definition rstrip (s : string) : string := reverse (lstrip (reverse s)).

Definition strip (s : string) : string := rstrip (lstrip s).

Definition startswith (s p : string) : bool := String.prefix p s.

Definition endswith (s p : string) : bool :=
  String.prefix (reverse p) (reverse s).

(** [sub in s] *)
Fixpoint contains (sub s : string) : bool :=
  String.prefix sub s ||
  match s with
  | EmptyString => false
  | String _ s' => contains sub s'
  end.

(** [s.count(sub)] for a non-empty [sub]: occurrences that do not overlap,
    scanning from the left.  [skip] is the number of characters still
    covered by the occurrence found last. *)
Fixpoint count_from (sub s : string) (skip : nat) : nat :=
  match s with
  | EmptyString => 0
  | String _ s' =>
      match skip with
      | S k => count_from sub s' k
      | O => if String.prefix sub s
             then S (count_from sub s' (len sub - 1))
             else count_from sub s' 0
      end
  end.

Definition count (s sub : string) : nat := count_from sub s 0.

(** [' ' * n] *)
Fixpoint spaces (n : nat) : string :=
  match n with
  | O => ""
  | S k => String " " (spaces k)
  end.

(** [s.split(sep)] for a separator of one character; the accumulator
    holds the reversed current field. *)
Fixpoint split_onto (sep : ascii) (s acc : string) : list string :=
  match s with
  | EmptyString => [reverse acc]
  | String c s' =>
      if Ascii.eqb c sep then reverse acc :: split_onto sep s' ""
      else split_onto sep s' (String c acc)
  end.

Definition split (s : string) (sep : ascii) : list string :=
  split_onto sep s "".

(** [sep.join(l)] *)
Fixpoint join (sep : string) (l : list string) : string :=
  match l with
  | [] => ""
  | [x] => x
  | x :: rest => x +:+ sep +:+ join sep rest
  end.

(** [''.join(l)], what [writelines] sends to the file. *)
Definition concat (l : list string) : string := fold_right String.append "" l.

(** Text-mode reading translates CR LF and a lone CR into LF. *)
Fixpoint universal_newlines (s : string) : string :=
  match s with
  | EmptyString => ""
  | String c s' =>
      if Ascii.eqb c CR then
        match s' with
        | String c' s'' =>
            if Ascii.eqb c' LF then String LF (universal_newlines s'')
            else String LF (universal_newlines s')
        | EmptyString => String LF ""
        end
      else String c (universal_newlines s')
  end.

(** [f.readlines()]: the lines of the text, each with its terminator; the
    last one has none when the text does not end with LF. *)
Fixpoint lines_onto (s acc : string) : list string :=
  match s with
  | EmptyString =>
      match acc with EmptyString => [] | _ => [reverse acc] end
  | String c s' =>
      if Ascii.eqb c LF then reverse (String c acc) :: lines_onto s' ""
      else lines_onto s' (String c acc)
  end.

Definition readlines (text : string) : list string :=
  lines_onto (universal_newlines text) "".

(** [s.split(sep, 1)[0]] when [sep] occurs in [s]: the text before its
    first occurrence. *)
Fixpoint before_first (sep : ascii) (s : string) : string :=
  match s with
  | EmptyString => ""
  | String c s' => if Ascii.eqb c sep then "" else String c (before_first sep s')
  end.

(** [s.split(sep)[-1]]: the text after the last occurrence of [sep]. *)
Definition after_last (sep : ascii) (s : string) : string :=
  reverse (before_first sep (reverse s)).

Fixpoint has_char (c : ascii) (s : string) : bool :=
  match s with
  | EmptyString => false
  | String c' s' => Ascii.eqb c c' || has_char c s'
  end.

(** [int(s)] on a string of decimal digits. *)
Definition digit_value (c : ascii) : nat := nat_of_ascii c - 48.

Fixpoint int_onto (s : string) (acc : nat) : nat :=
  match s with
  | EmptyString => acc
  | String c s' => int_onto s' (10 * acc + digit_value c)
  end.

Definition int (s : string) : nat := int_onto s 0.

(** [str(n)] *)
Definition str_of_nat (n : nat) : string :=
  NilZero.string_of_uint (Nat.to_uint n).

(** The longest prefix of [s] whose characters satisfy [p], and the rest. *)
Fixpoint span_while (p : ascii -> bool) (s : string) : string * string :=
  match s with
  | EmptyString => ("", "")
  | String c s' =>
      if p c then let '(a, b) := span_while p s' in (String c a, b)
      else ("", s)
  end.

(** [s] without the prefix [p], when it starts with it. *)
Fixpoint strip_prefix (p s : string) : option string :=
  match p, s with
  | EmptyString, _ => Some s
  | String a p', String b s' =>
      if Ascii.eqb a b then strip_prefix p' s' else None
  | String _ _, EmptyString => None
  end.

End PyStr.

(** ** Regular expressions *)

Module Regex.

Inductive regex : Type :=
| Void                                  (* no string *)
| Eps                                   (* the empty string *)
| Class (p : ascii -> bool)             (* one character of a class *)
| Cat (r1 r2 : regex)
| Alt (r1 r2 : regex)
| Star (r : regex).

Fixpoint nullable (r : regex) : bool :=
  match r with
  | Void => false
  | Eps => true
  | Class _ => false
  | Cat r1 r2 => nullable r1 && nullable r2
  | Alt r1 r2 => nullable r1 || nullable r2
  | Star _ => true
  end.

Definition cat (r1 r2 : regex) : regex :=
  match r1, r2 with
  | Void, _ => Void
  | _, Void => Void
  | Eps, _ => r2
  | _, _ => Cat r1 r2
  end.

Definition alt (r1 r2 : regex) : regex :=
  match r1, r2 with
  | Void, _ => r2
  | _, Void => r1
  | _, _ => Alt r1 r2
  end.

(** The derivative of [r] by the character [c]. *)
Fixpoint deriv (c : ascii) (r : regex) : regex :=
  match r with
  | Void => Void
  | Eps => Void
  | Class p => if p c then Eps else Void
  | Cat r1 r2 =>
      alt (cat (deriv c r1) r2) (if nullable r1 then deriv c r2 else Void)
  | Alt r1 r2 => alt (deriv c r1) (deriv c r2)
  | Star r1 => cat (deriv c r1) (Star r1)
  end.

(** [re.match(r, s)]: some prefix of [s] is in the language of [r]. *)
Fixpoint re_match (r : regex) (s : string) : bool :=
  nullable r ||
  match s with
  | EmptyString => false
  | String c s' => re_match (deriv c r) s'
  end.

(** [re.search(r, s)]: some substring of [s] is in the language of [r]. *)
Fixpoint re_search (r : regex) (s : string) : bool :=
  re_match r s ||
  match s with
  | EmptyString => false
  | String _ s' => re_search r s'
  end.

Definition chr (c : ascii) : regex := Class (Ascii.eqb c).
Definition plus (r : regex) : regex := Cat r (Star r).

Fixpoint lit (s : string) : regex :=
  match s with
  | EmptyString => Eps
  | String c s' => Cat (chr c) (lit s')
  end.

Definition space : regex := Class PyStr.is_space.           (* \s *)
Definition word : regex := Class PyStr.is_word.             (* \w *)
Definition dot : regex :=                                   (* .  *)
  Class (fun c => negb (Ascii.eqb c PyStr.LF)).

(** The leftmost place where the scanner [m] succeeds: the text before
    it and what [m] returns there.  [re.search] and [re.sub] with
    [count=1] look for the leftmost match. *)
Fixpoint leftmost {A : Type} (m : string -> option A) (s : string)
  : option (string * A) :=
  match m s with
  | Some a => Some ("", a)
  | None =>
      match s with
      | EmptyString => None
      | String c s' =>
          match leftmost m s' with
          | Some (pre, a) => Some (String c pre, a)
          | None => None
          end
      end
  end.

(** [re.search(r'\b(kw)\b', s)] for a keyword [kw] made of word
    characters: an occurrence with no word character right before it and
    none right after it.  [prev_word] tells whether the character before
    [s] is a word character. *)
Fixpoint search_keyword (kw s : string) (prev_word : bool) : bool :=
  (negb prev_word &&
   match PyStr.strip_prefix kw s with
   | Some (String c _) => negb (PyStr.is_word c)
   | Some EmptyString => true
   | None => false
   end) ||
  match s with
  | EmptyString => false
  | String c s' => search_keyword kw s' (PyStr.is_word c)
  end.

End Regex.

Import PyStr Regex.

(** ** Indentation helpers (lines 17-74 of the source) *)

(** [len(line) - len(line.lstrip())] *)
Definition indent_width (line : string) : nat :=
  len line - len (lstrip line).

Definition get_indent (line : string) : string :=
  spaces (indent_width line).

Definition wrap_in_try_except (line exception_type : string)
    (indent_level : nat) : string :=
  let base_indent := spaces indent_level in
  let inner_indent := spaces (indent_level + 4) in
  base_indent +:+ "try:" +:+ NL +:+
  inner_indent +:+ strip line +:+ NL +:+
  base_indent +:+ "except " +:+ exception_type +:+ ":" +:+ NL +:+
  inner_indent +:+ "return {}" +:+ NL.

(** The [while] loop of [get_indented_block] over the lines that follow the
    first one: blank lines are taken as empty strings, any other line is
    taken while it is indented deeper than [base_indent]. *)
Fixpoint block_tail (base_indent : nat) (rest : list string) : list string :=
  match rest with
  | [] => []
  | line :: rest' =>
      if String.eqb (strip line) "" then "" :: block_tail base_indent rest'
      else if indent_width line <=? base_indent then []
      else rstrip line :: block_tail base_indent rest'
  end.

Definition get_indented_block (lines : list string) (start_idx : nat)
  : list string * nat :=
  match drop start_idx lines with
  | [] => ([], 0)
  | first :: rest =>
      let base_indent := indent_width first in
      (rstrip first :: block_tail base_indent rest, base_indent)
  end.

Definition wrap_block_line (base_indent : nat) (block_line : string) : string :=
  if negb (String.eqb (strip block_line) "") then
    let line_indent := indent_width block_line in
    let extra_indent := line_indent - base_indent in
    spaces (base_indent + 4) +:+ spaces extra_indent +:+ lstrip block_line
  else "".

Definition wrap_block_in_try_except (block_lines : list string)
    (base_indent : nat) (exception_type : string) : string :=
  let spaces_ := spaces base_indent in
  let inner_spaces := spaces (base_indent + 4) in
  let fixed_lines :=
    [spaces_ +:+ "try:"]
    ++ map (wrap_block_line base_indent) block_lines
    ++ [spaces_ +:+ "except " +:+ exception_type +:+ ":"]
    ++ [inner_spaces +:+ "return {}"] in
  join NL fixed_lines +:+ NL.

(** ** The UnboundLocalError handler (lines 103-171) *)

(** The first group of the leftmost match of [local variable '(\w+)'] . *)
Definition local_variable_at (s : string) : option string :=
  match strip_prefix "local variable '" s with
  | Some rest =>
      match span_while is_word rest with
      | (EmptyString, _) => None
      | (name, String c _) => if Ascii.eqb c "'" then Some name else None
      | (_, EmptyString) => None
      end
  | None => None
  end.

Definition search_local_variable (error_msg : string) : option string :=
  snd <$> leftmost local_variable_at error_msg.

(** [^\s*def\s+\w+\s*\(] *)
Definition def_header : regex :=
  Cat (Star space) (Cat (lit "def") (Cat (plus space)
    (Cat (plus word) (Cat (Star space) (chr "("))))).

(** [for i in range(k - 1, -1, -1)]: the nearest line at or above index
    [k - 1] that opens a function.  The outer [None] is the IndexError of
    [lines[i]]. *)
Fixpoint find_def_from (lines : list string) (k : nat) : option (option nat) :=
  match k with
  | O => Some None
  | S i =>
      match lines !! i with
      | None => None
      | Some l =>
          if re_match def_header l then Some (Some i)
          else find_def_from lines i
      end
  end.

(** The [while] loop that looks for the line closing a docstring, from the
    index [idx] on; [rest] are the lines from that index. *)
Fixpoint skip_docstring (quote_type : string) (rest : list string) (idx : nat)
  : nat :=
  match rest with
  | [] => idx
  | l :: rest' =>
      if contains quote_type l then S idx
      else skip_docstring quote_type rest' (S idx)
  end.

Definition triple_dq : string := dq +:+ dq +:+ dq.
Definition triple_sq : string := "'''".

Definition insertion_index (lines : list string) (func_line_idx : nat) : nat :=
  let insert_idx := func_line_idx + 1 in
  match lines !! insert_idx with
  | Some l =>
      let stripped := strip l in
      if startswith stripped triple_dq || startswith stripped triple_sq then
        let quote_type :=
          if startswith stripped triple_dq then triple_dq else triple_sq in
        if 2 <=? count stripped quote_type then insert_idx + 1
        else skip_docstring quote_type (drop (insert_idx + 1) lines)
               (insert_idx + 1)
      else insert_idx
  | None => insert_idx
  end.

(** [range(lo, hi)] as the list of its indices. *)
Definition range (lo hi : nat) : list nat := seq lo (hi - lo).

Definition already_initialized (lines : list string) (var_name : string)
    (func_line_idx insert_idx : nat) : bool :=
  existsb
    (fun i =>
       match lines !! i with
       | Some l => contains (var_name +:+ " = None") l && contains "Initialize" l
       | None => false
       end)
    (range (func_line_idx + 1) (Nat.min (insert_idx + 3) (List.length lines))).

(** What [_fix_unbound_local_error] gives back: [None], [False], [True]
    together with the list it has changed in place, or an exception. *)
Inductive unbound_result : Type :=
| UL_None
| UL_False
| UL_True (lines' : list string)
| UL_Raises.

Definition _fix_unbound_local_error (lines : list string) (line_number : nat)
    (indent error_msg : string) : unbound_result :=
  match search_local_variable error_msg with
  | None => UL_None
  | Some var_name =>
      match find_def_from lines line_number with
      | None => UL_Raises
      | Some found =>
          let func_line_idx := default 0 found in
          let insert_idx := insertion_index lines func_line_idx in
          if already_initialized lines var_name func_line_idx insert_idx
          then UL_False
          else
            match lines !! func_line_idx with
            | None => UL_Raises
            | Some func_line =>
                let func_indent := get_indent func_line in
                let body_indent := func_indent +:+ "    " in
                let init_line :=
                  body_indent +:+ var_name +:+
                  " = None  # Initialize to fix UnboundLocalError" +:+ NL in
                UL_True (take insert_idx lines ++ init_line :: drop insert_idx lines)
            end
      end
  end.

(** ** The rule registry (lines 175-727) *)

(** The [fix] field of a pattern: the marker ['special_unbound_local'] or a
    callable of the line, its indentation and the error message.  A callable
    that raises gives [None]. *)
Inductive fix_kind : Type :=
| special_unbound_local
| fix_fn (f : string -> string -> string -> option string).

(** One pattern of a class.  [detect] is [re.search] of the pattern's
    regular expression on a line. *)
Record pattern : Type := Pattern {
  detect : string -> bool;
  fix_ : fix_kind;
  multiline : bool
}.

(** [ERROR_DATABASE]: from the failure class to its ['patterns'] list. *)
Abbreviation database := (gmap string (list pattern)).

(** ** The target script on disk

    One file is modelled, the script under repair.  [fix_error] keeps its
    [file_path] argument: [main] calls it only with a path that it has
    checked to name the script.  The line terminator is written as it is,
    as on a POSIX system. *)

(** How one [with open(file_path, 'w') as f: f.writelines(lines)] ends:
    it completes; or [open] raises, which leaves the file alone; or
    [writelines] or the closing of the file raises once the file has been
    emptied and the first [flushed] lines have reached it. *)
Inductive write_outcome : Type :=
| write_completes
| open_raises
| write_raises (flushed : nat).

Record world : Type := World {
  text : string;          (* what the file holds *)
  readable : bool;        (* [open(file_path, 'r')] succeeds *)
  writable : bool;        (* the file may be opened for writing at all *)
  upcoming : list write_outcome
                          (* how the next writes end, one entry for each
                             write, in order; the writes after these
                             complete *)
}.

(** How the next write ends. *)
Definition next_write (w : world) : write_outcome :=
  match upcoming w with
  | o :: _ => o
  | [] => write_completes
  end.

(** What [open(file_path, 'w')] followed by [writelines] does to the file,
    one system-level step at a time: opening for writing empties the file in
    place, then the lines are appended. *)
Inductive disk_op : Type :=
| Truncate
| Append (chunk : string).

Definition run_op (t : string) (op : disk_op) : string :=
  match op with
  | Truncate => ""
  | Append chunk => t +:+ chunk
  end.

Definition run_ops (ops : list disk_op) (t : string) : string :=
  fold_left run_op ops t.

Definition write_back_ops (lines : list string) : list disk_op :=
  Truncate :: map Append lines.

(** The file after a crash that lets only the first [k] steps through. *)
Definition crashed_after (k : nat) (lines : list string) (t : string) : string :=
  run_ops (take k (write_back_ops lines)) t.

(** A write either completes or raises; both hand back the file as the
    write leaves it. *)
Inductive write_result : Type :=
| Completed (w' : world)
| Raised (w' : world).

(** [with open(file_path, 'w') as f: f.writelines(lines)].  A file that may
    not be opened for writing makes [open] raise every time.  Otherwise the
    write ends as the file system has it next: when it raises after the
    opening, the file keeps what the steps before the error have made of
    it. *)
Definition write_back (w : world) (lines : list string) : write_result :=
  if writable w then
    match next_write w with
    | write_completes =>
        Completed {| text := run_ops (write_back_ops lines) (text w);
                     readable := readable w; writable := writable w;
                     upcoming := tail (upcoming w) |}
    | open_raises =>
        Raised {| text := text w;
                  readable := readable w; writable := writable w;
                  upcoming := tail (upcoming w) |}
    | write_raises flushed =>
        Raised {| text := crashed_after (S flushed) lines (text w);
                  readable := readable w; writable := writable w;
                  upcoming := tail (upcoming w) |}
    end
  else Raised w.

(** [with open(file_path, 'r') as f: lines = f.readlines()] *)
Definition read_lines (w : world) : option (list string) :=
  if readable w then Some (readlines (text w)) else None.

(** ** What the program prints *)

Inductive event : Type :=
| WARN_no_solution (error_type : string)
| ERROR_cannot_read
| ERROR_out_of_range (line_number file_lines : nat)
| FIX_special (error_type : string)
| WARN_special_not_applied
| FIX_applied (error_type : string) (line_number pattern_number : nat)
| ERROR_failed_to_apply
| WARN_no_matching (error_type : string) (line_number : nat)
| LINE (stripped : string)
| ITERATION (n : nat)
| SUCCESS
| COMPLETE (fixed iterations : nat)
| FIXED (errors : list string)
| ERROR_no_type (stderr : string)
| ERROR_no_location (stderr : string)
| SKIP_external (error_file stderr : string)
| DETECTED (descriptor : string)
| ERROR_loop_detected (stderr : string)
| FAILED (full_error : string)
| TIMEOUT
| RESTORE.

(** ** The patch engine: [fix_error] (lines 804-897) *)

(** [lines[i] = v]; [None] is the IndexError. *)
Definition set_line (lines : list string) (i : nat) (v : string)
  : option (list string) :=
  if i <? List.length lines then Some (<[i := v]> lines) else None.

(** [fixed] with a final LF when it has none. *)
Definition ensure_newline (fixed : string) : string :=
  if endswith fixed NL then fixed else fixed +:+ NL.

(** [[line + '\n' for line in fixed.split('\n') if line]] *)
Definition new_lines_of (fixed : string) : list string :=
  map (fun line => line +:+ NL)
      (List.filter (fun line => negb (String.eqb line "")) (split fixed LF)).

Definition needs_block_wrap (p : pattern) (target_line : string) : bool :=
  multiline p &&
  (search_keyword "with" target_line false
   || search_keyword "for" target_line false
   || search_keyword "while" target_line false
   || endswith (strip target_line) ":").

Definition block_classes : list string :=
  ["FileNotFoundError"; "JSONDecodeError"; "PermissionError"].

Definition in_block_classes (error_type : string) : bool :=
  existsb (String.eqb error_type) block_classes.

(** The body of the [try] for a callable [f], up to the write: the list
    [lines] after the assignment, or [None] when something raised before
    the list was touched. *)
Definition apply_callable (f : string -> string -> string -> option string)
    (p : pattern) (lines : list string) (error_type : string)
    (line_number : nat) (target_line indent error_message : string)
  : option (list string) :=
  if needs_block_wrap p target_line then
    let '(block_lines, base_indent) := get_indented_block lines (line_number - 1) in
    match block_lines with
    | _ :: _ =>
        fixed ← (if in_block_classes error_type
                 then Some (wrap_block_in_try_except block_lines base_indent error_type)
                 else f target_line indent error_message);
        let lines_to_replace := List.length block_lines in
        let new_lines := new_lines_of fixed in
        Some (take (line_number - 1) lines ++ new_lines
              ++ drop (line_number - 1 + lines_to_replace) lines)
    | [] =>
        fixed ← f target_line indent error_message;
        set_line lines (line_number - 1) (ensure_newline fixed)
    end
  else if multiline p then
    fixed ← f target_line indent error_message;
    set_line lines (line_number - 1) fixed
  else
    fixed ← f target_line indent error_message;
    set_line lines (line_number - 1) (ensure_newline fixed).

(** What an attempt prints before the loop goes on to the next pattern
    is put in front of what the rest of the loop prints. *)
Definition after_printing (printed : list event)
    (r : bool * world * list event) : bool * world * list event :=
  let '(ok, w', evs) := r in (ok, w', printed ++ evs).

(** The [for] loop over the patterns of the class.  [pattern_idx] counts
    from 0; [lines] is the list and [w] the file as the earlier attempts
    have left them: an attempt whose write raises is caught by the [except]
    clause and the loop goes on, with the list changed in memory and the
    file as the failed write left it. *)
Fixpoint try_patterns (patterns : list pattern) (pattern_idx : nat)
    (lines : list string) (w : world) (error_type : string)
    (line_number : nat) (target_line indent error_message : string)
  : bool * world * list event :=
  match patterns with
  | [] =>
      (false, w,
       [WARN_no_matching error_type line_number; LINE (strip target_line)])
  | p :: rest =>
      let continue_with lines' w' (printed : list event) :=
        after_printing printed
          (try_patterns rest (S pattern_idx) lines' w' error_type line_number
             target_line indent error_message) in
      if detect p target_line then
        match fix_ p with
        | special_unbound_local =>
            match _fix_unbound_local_error lines line_number indent error_message with
            | UL_True lines' =>
                match write_back w lines' with
                | Completed w' => (true, w', [FIX_special error_type])
                | Raised w' => continue_with lines' w' [ERROR_failed_to_apply]
                end
            | UL_None | UL_False =>
                continue_with lines w [WARN_special_not_applied]
            | UL_Raises => continue_with lines w [ERROR_failed_to_apply]
            end
        | fix_fn f =>
            match apply_callable f p lines error_type line_number
                    target_line indent error_message with
            | Some lines' =>
                match write_back w lines' with
                | Completed w' =>
                    (true, w',
                     [FIX_applied error_type line_number (pattern_idx + 1)])
                | Raised w' => continue_with lines' w' [ERROR_failed_to_apply]
                end
            | None => continue_with lines w [ERROR_failed_to_apply]
            end
        end
      else continue_with lines w []
  end.

Definition fix_error (ERROR_DATABASE : database) (w : world)
    (file_path error_type : string) (line_number : nat)
    (error_message : string) : bool * world * list event :=
  match ERROR_DATABASE !! error_type with
  | None => (false, w, [WARN_no_solution error_type])
  | Some patterns =>
      match read_lines w with
      | None => (false, w, [ERROR_cannot_read])
      | Some lines =>
          if (List.length lines <? line_number) || (line_number <? 1) then
            (false, w, [ERROR_out_of_range line_number (List.length lines)])
          else
            match lines !! (line_number - 1) with
            | None => (false, w, [ERROR_out_of_range line_number (List.length lines)])
            | Some target_line =>
                let indent := get_indent target_line in
                try_patterns patterns 0 lines w error_type line_number
                  target_line indent error_message
            end
      end
  end.

(** ** The diagnostic parser: [parse_error] (lines 743-801) *)

Definition in_database (ERROR_DATABASE : database) (k : string) : bool :=
  match ERROR_DATABASE !! k with
  | Some _ => true
  | None => false
  end.

(** Python truthiness of a string and of an optional value. *)
Definition truthy_str (s : string) : bool := negb (String.eqb s "").

Definition truthy_opt_str (o : option string) : bool :=
  match o with
  | Some s => truthy_str s
  | None => false
  end.

Definition truthy_opt_int (o : option nat) : bool :=
  match o with
  | Some n => negb (n =? 0)
  | None => false
  end.

Definition potential_error_of (line : string) : string :=
  let potential_error := strip (before_first ":" line) in
  if has_char "." potential_error then after_last "." potential_error
  else potential_error.

(** The first loop, over [reversed(lines)]. *)
Fixpoint find_error_type (ERROR_DATABASE : database) (reversed_lines : list string)
  : option string :=
  match reversed_lines with
  | [] => None
  | line :: rest =>
      if truthy_str (strip line) && has_char ":" line then
        let potential_error := potential_error_of line in
        if in_database ERROR_DATABASE potential_error
           || endswith potential_error "Error"
        then Some potential_error
        else find_error_type ERROR_DATABASE rest
      else find_error_type ERROR_DATABASE rest
  end.

Definition frame : Type := string * nat.

(** The two groups of a match, at the head of [s], of the pattern that
    reads a frame: the word File, a quoted path that is not empty, then
    [, line ] and a decimal number. *)
Definition frame_at (s : string) : option frame :=
  rest ← strip_prefix ("File " +:+ dq) s;
  let '(file_path, rest2) := span_while (fun c => negb (Ascii.eqb c DQ)) rest in
  if String.eqb file_path "" then None
  else
    rest3 ← strip_prefix (dq +:+ ", line ") rest2;
    let '(digits, _) := span_while is_digit rest3 in
    if String.eqb digits "" then None
    else Some (file_path, int digits).

Definition frame_of_line (line : string) : option frame :=
  if contains ("File " +:+ dq) line && contains ", line " line
  then snd <$> leftmost frame_at line
  else None.

(** The test that skips the frames of the interpreter and of its library. *)
Definition is_user_file (file_path : string) : bool :=
  negb (startswith file_path "<") && negb (contains "/lib/python" file_path).

(** One turn of the second loop: [all_frames.append] when the line names a
    frame of a user file. *)
Definition add_frame (all_frames : list frame) (line : string) : list frame :=
  match frame_of_line line with
  | Some (file_path, line_num) =>
      if is_user_file file_path then all_frames ++ [(file_path, line_num)]
      else all_frames
  | None => all_frames
  end.

Definition collect_frames (lines : list string) : list frame :=
  fold_left add_frame lines [].

(** The frame that a line of the traceback contributes, if any. *)
Definition user_frames_of_line (line : string) : list frame :=
  add_frame [] line.

Section Parser.

Variable ERROR_DATABASE : database.
(** [os.path.abspath]; it depends on the working directory. *)
Variable abspath : string -> string.

(** The frame that [parse_error] settles on, from the collected frames. *)
Definition select_frame (all_frames : list frame) (target_script : option string)
  : option string * option nat :=
  let '(error_file, error_line) :=
    match target_script, all_frames with
    | Some target, _ :: _ =>
        if truthy_str target then
          let target_abs := abspath target in
          let target_frames :=
            filter (fun fr : frame => abspath fr.1 = target_abs) all_frames in
          match last target_frames with
          | Some (f, ln) => (Some f, Some ln)
          | None => (None, None)
          end
        else (None, None)
    | _, _ => (None, None)
    end in
  if negb (truthy_opt_str error_file) then
    match last all_frames with
    | Some (f, ln) => (Some f, Some ln)
    | None => (error_file, error_line)
    end
  else (error_file, error_line).

Definition parse_error (stderr : string) (target_script : option string)
  : option string * option string * option nat * string :=
  let lines := split (strip stderr) LF in
  let error_type := find_error_type ERROR_DATABASE (rev lines) in
  let all_frames := collect_frames lines in
  let '(error_file, error_line) := select_frame all_frames target_script in
  (error_type, error_file, error_line, stderr).

End Parser.

(** ** The repair loop: [main] from the backup on (lines 921-975) *)

Inductive outcome : Type :=
| Converged
| Unrecoverable
| Cycled
| IterationLimitReached.

(** The local variables of [main] that the loop changes, the file, and
    what has been printed. *)
Record session : Type := Session {
  iteration : nat;
  fixed_errors : list string;
  disk : world;
  printed : list event
}.

(** The loop is still turning, or [main] has returned. *)
Inductive state : Type :=
| Running (s : session)
| Finished (o : outcome) (s : session).

(** [f"{error_type} at line {error_line}"] *)
Definition error_descriptor (error_type : string) (error_line : nat) : string :=
  error_type +:+ " at line " +:+ str_of_nat error_line.

Definition print (s : session) (evs : list event) : session :=
  {| iteration := iteration s; fixed_errors := fixed_errors s;
     disk := disk s; printed := printed s ++ evs |}.

Section Loop.

Variable ERROR_DATABASE : database.
Variable abspath : string -> string.
(** [run_and_capture_error(script_path)]: the standard error of the
    target run in a subprocess, [None] when it exits with status 0.  The
    run is assumed to return; its result may depend on the file and on
    the turn of the loop. *)
Variable run_and_capture_error : nat -> world -> option string.
Variable script_path : string.
Variable max_iterations : nat.

(** The statement after the loop. *)
Definition after_loop (s : session) : session :=
  if max_iterations <=? iteration s then print s [TIMEOUT; RESTORE] else s.

(** A [break]: what is printed before it, then the statement after the
    loop. *)
Definition break (o : outcome) (s : session) (evs : list event) : state :=
  Finished o (after_loop (print s evs)).

(** One pass through the body of the [while]. *)
Definition loop_body (s0 : session) : state :=
  let s :=
    {| iteration := iteration s0 + 1; fixed_errors := fixed_errors s0;
       disk := disk s0;
       printed := printed s0 ++ [ITERATION (iteration s0 + 1)] |} in
  let stderr := default "" (run_and_capture_error (iteration s) (disk s)) in
  if negb (truthy_str stderr) then
    break Converged s
      ([SUCCESS; COMPLETE (List.length (fixed_errors s)) (iteration s - 1)]
       ++ match fixed_errors s with
          | [] => []
          | _ :: _ => [FIXED (fixed_errors s)]
          end)
  else
    let '(error_type, error_file, error_line, full_error) :=
      parse_error ERROR_DATABASE abspath stderr (Some script_path) in
    match error_type with
    | Some error_type =>
        if truthy_str error_type then
          match error_file, error_line with
          | Some error_file, Some error_line =>
              if truthy_str error_file && negb (error_line =? 0) then
                if negb (String.eqb (abspath error_file) (abspath script_path))
                then break Unrecoverable s [SKIP_external error_file stderr]
                else
                  let descriptor := error_descriptor error_type error_line in
                  let s := print s [DETECTED descriptor] in
                  if bool_decide (descriptor ∈ fixed_errors s) then
                    break Cycled s [ERROR_loop_detected stderr]
                  else
                    let '(ok, w', evs) :=
                      fix_error ERROR_DATABASE (disk s) error_file error_type
                        error_line full_error in
                    if ok then
                      Running
                        {| iteration := iteration s;
                           fixed_errors := fixed_errors s ++ [descriptor];
                           disk := w';
                           printed := printed s ++ evs |}
                    else
                      break Unrecoverable
                        {| iteration := iteration s;
                           fixed_errors := fixed_errors s;
                           disk := w';
                           printed := printed s |}
                        (evs ++ [FAILED full_error])
              else break Unrecoverable s [ERROR_no_location stderr]
          | _, _ => break Unrecoverable s [ERROR_no_location stderr]
          end
        else break Unrecoverable s [ERROR_no_type stderr]
    | None => break Unrecoverable s [ERROR_no_type stderr]
    end.

(** The loop test and one pass through the body. *)
Definition step (st : state) : state :=
  match st with
  | Running s =>
      if iteration s <? max_iterations then loop_body s
      else Finished IterationLimitReached (after_loop s)
  | Finished _ _ => st
  end.

Definition initial (w : world) : state :=
  Running {| iteration := 0; fixed_errors := []; disk := w; printed := [] |}.

(** [n] steps of the session that starts on the file [w]. *)
Definition run_session (n : nat) (w : world) : state :=
  Nat.iter n step (initial w).

End Loop.

(** The bound that [main] sets. *)
Definition default_max_iterations : nat := 100.

Definition main (ERROR_DATABASE : database) (abspath : string -> string)
    (run_and_capture_error : nat -> world -> option string)
    (script_path : string) (w : world) : state :=
  run_session ERROR_DATABASE abspath run_and_capture_error script_path
    default_max_iterations (S default_max_iterations) w.

(** ** The entries of [ERROR_DATABASE] used below

    FileNotFoundError (lines 176-185), KeyError (lines 187-216) and
    UnboundLocalError (lines 399-408), transcribed in full. *)

(** [re.sub(pattern, repl, line, count=1)], for a scanner that gives the
    replacement of a match at the head of its argument and the text that
    follows the match. *)
Definition sub_first (m : string -> option (string * string)) (line : string)
  : string :=
  match leftmost m line with
  | Some (before, (replacement, after)) => before +:+ replacement +:+ after
  | None => line
  end.

Definition is_quote (c : ascii) : bool := Ascii.eqb c "'" || Ascii.eqb c DQ.

(** [open\s*\(] *)
Definition re_open_call : regex :=
  Cat (lit "open") (Cat (Star space) (chr "(")).

(** [\]\s*\[] *)
Definition re_chained_access : regex :=
  Cat (chr "]") (Cat (Star space) (chr "[")).

(** [(\w+)\[(['\"])([^'\"]+)\2\]]; the back-reference is unfolded into
    the two quotes it can stand for. *)
Definition re_literal_key_with (q : ascii) : regex :=
  Cat (plus word) (Cat (chr "[") (Cat (chr q)
    (Cat (plus (Class (fun c => negb (is_quote c)))) (Cat (chr q) (chr "]"))))).

Definition re_literal_key : regex :=
  Alt (re_literal_key_with "'") (re_literal_key_with DQ).

(** [(\w+)\[(\w+)\]] *)
Definition re_variable_key : regex :=
  Cat (plus word) (Cat (chr "[") (Cat (plus word) (chr "]"))).

(** [.*] *)
Definition re_anything : regex := Star dot.

(** A match of the literal-key pattern at the head of [s], replaced by
    [\1.get(\2\3\2, None)]. *)
Definition literal_key_at (s : string) : option (string * string) :=
  match span_while is_word s with
  | (EmptyString, _) => None
  | (obj, String b (String q rest)) =>
      if Ascii.eqb b "[" && is_quote q then
        match span_while (fun c => negb (is_quote c)) rest with
        | (EmptyString, _) => None
        | (key, String q' (String b' after)) =>
            if Ascii.eqb q' q && Ascii.eqb b' "]" then
              Some (obj +:+ ".get(" +:+ String q key +:+ String q ", None)", after)
            else None
        | _ => None
        end
      else None
  | _ => None
  end.

(** A match of the variable-key pattern at the head of [s], replaced by
    [\1.get(\2, None)]. *)
Definition variable_key_at (s : string) : option (string * string) :=
  match span_while is_word s with
  | (EmptyString, _) => None
  | (obj, String b rest) =>
      if Ascii.eqb b "[" then
        match span_while is_word rest with
        | (EmptyString, _) => None
        | (key, String b' after) =>
            if Ascii.eqb b' "]" then
              Some (obj +:+ ".get(" +:+ key +:+ ", None)", after)
            else None
        | _ => None
        end
      else None
  | _ => None
  end.

Definition open_call_pattern : pattern :=
  {| detect := re_search re_open_call;
     fix_ := fix_fn (fun line indent error_msg =>
               Some (wrap_in_try_except line "FileNotFoundError" (len indent)));
     multiline := true |}.

Definition FileNotFoundError_patterns : list pattern := [open_call_pattern].

Definition chained_access_pattern : pattern :=
  {| detect := re_search re_chained_access;
     fix_ := fix_fn (fun line indent error_msg =>
               Some (wrap_in_try_except line
                       "(IndexError, KeyError, TypeError)" (len indent)));
     multiline := true |}.

Definition literal_key_pattern : pattern :=
  {| detect := re_search re_literal_key;
     fix_ := fix_fn (fun line indent error_msg =>
               Some (sub_first literal_key_at line));
     multiline := false |}.

Definition variable_key_pattern : pattern :=
  {| detect := re_search re_variable_key;
     fix_ := fix_fn (fun line indent error_msg =>
               Some (sub_first variable_key_at line));
     multiline := false |}.

Definition KeyError_patterns : list pattern :=
  [chained_access_pattern; literal_key_pattern; variable_key_pattern].

Definition unbound_local_pattern : pattern :=
  {| detect := re_search re_anything;
     fix_ := special_unbound_local;
     multiline := false |}.

Definition UnboundLocalError_patterns : list pattern := [unbound_local_pattern].

Definition ERROR_DATABASE_excerpt : database :=
  <["UnboundLocalError" := UnboundLocalError_patterns]>
    (<["KeyError" := KeyError_patterns]>
       (<["FileNotFoundError" := FileNotFoundError_patterns]> ∅)).

(** A file that can be read and written, on a file system where every
    write completes. *)
Definition file_of_lines (lines : list string) : world :=
  {| text := concat lines; readable := true; writable := true;
     upcoming := [] |}.

(** The same file when the next writes end as [outcomes] say. *)
Definition file_with_writes (lines : list string)
    (outcomes : list write_outcome) : world :=
  {| text := concat lines; readable := true; writable := true;
     upcoming := outcomes |}.

Definition ln (s : string) : string := s +:+ NL.

(** ** Inputs of the examples *)

(** A [with] block inside a function, with a blank line between the two
    statements of its body and another one after it. *)
Definition nested_with_block : list string :=
  [ ln "def load(p):";
    ln "    with open(p) as f:";
    ln "        x = f.read()";
    ln "";
    ln "        y = len(x)";
    ln "";
    ln "    return y" ].

(** The same function after the FileNotFoundError patch of line 2. *)
Definition nested_with_block_patched : list string :=
  [ ln "def load(p):";
    ln "    try:";
    ln "        with open(p) as f:";
    ln "            x = f.read()";
    ln "            y = len(x)";
    ln "    except FileNotFoundError:";
    ln "        return {}";
    ln "    return y" ].

(** A [with] block with a blank line between two statements of its body. *)
Definition with_block_blank_inside : list string :=
  [ ln "with open(p) as f:";
    ln "    a = f.read()";
    ln "";
    ln "    b = len(a)" ].

(** ** The span of a block as the design document words it

    The failing line and the lines right after it whose indentation is
    strictly greater; the span stops at the first line that is not. *)

Fixpoint deeper_run (base_indent : nat) (rest : list string) : list string :=
  match rest with
  | [] => []
  | l :: rest' =>
      if base_indent <? indent_width l then l :: deeper_run base_indent rest'
      else []
  end.

Definition spec_block_span (lines : list string) (start_idx : nat) : nat :=
  match drop start_idx lines with
  | [] => 0
  | first :: rest => S (List.length (deeper_run (indent_width first) rest))
  end.

(** The test that keeps [get_indented_block] reading: a blank line, or a
    line indented deeper than the first one. *)
Definition continues_block (base_indent : nat) (line : string) : bool :=
  String.eqb (strip line) "" || (base_indent <? indent_width line).

(** What [get_indented_block] makes of a line that it takes into the
    block: the empty string of a blank line, any other line without the
    white space at its end. *)
Definition block_entry (line : string) : string :=
  if String.eqb (strip line) "" then "" else rstrip line.

(** ** The outcome of one pattern

    What the branch of a pattern hands to the write: the changed list, or
    [None] when its callable raises, an index is out of range, or the
    UnboundLocalError handler gives [None] or [False]. *)
Definition patch_of (p : pattern) (lines : list string) (error_type : string)
    (line_number : nat) (target_line indent error_message : string)
  : option (list string) :=
  match fix_ p with
  | special_unbound_local =>
      match _fix_unbound_local_error lines line_number indent error_message with
      | UL_True lines' => Some lines'
      | _ => None
      end
  | fix_fn f =>
      apply_callable f p lines error_type line_number target_line indent
        error_message
  end.

(** The line that [fix_error] prints when the pattern at index
    [pattern_idx] has been applied. *)
Definition fix_event (p : pattern) (error_type : string)
    (line_number pattern_idx : nat) : event :=
  match fix_ p with
  | special_unbound_local => FIX_special error_type
  | fix_fn _ => FIX_applied error_type line_number (pattern_idx + 1)
  end.

(** The file after a write of [lines] that completes. *)
Definition written (w : world) (lines : list string) : world :=
  {| text := concat lines; readable := readable w; writable := writable w;
     upcoming := tail (upcoming w) |}.

(** ** One attempt of the loop over the patterns *)

Section Attempts.

Variables (error_type : string) (line_number : nat).
Variables (target_line indent error_message : string).

(** The attempt of the pattern [p] on the list [lines] and the file [w]
    goes through, leaving the file [w']: the trigger matches the failing
    line, the branch yields a patch and the write of the patch completes. *)
Definition attempt_completes (p : pattern) (lines : list string)
    (w w' : world) : Prop :=
  detect p target_line = true
  /\ exists lines',
       patch_of p lines error_type line_number target_line indent
         error_message = Some lines'
       /\ write_back w lines' = Completed w'.

(** The attempt fails: the trigger does not match, or the branch yields no
    patch, or the write of the patch raises. *)
Definition attempt_fails (p : pattern) (lines : list string) (w : world)
  : Prop :=
  detect p target_line = false
  \/ (detect p target_line = true
      /\ patch_of p lines error_type line_number target_line indent
           error_message = None)
  \/ (detect p target_line = true
      /\ exists lines' w1,
           patch_of p lines error_type line_number target_line indent
             error_message = Some lines'
           /\ write_back w lines' = Raised w1).

(** The list and the file as a failed attempt of [p] leaves them: the list
    keeps the patch of an attempt whose write raised, the file what that
    write made of it. *)
Definition after_failed_attempt (st : list string * world) (p : pattern)
  : list string * world :=
  if detect p target_line then
    match patch_of p st.1 error_type line_number target_line indent
            error_message with
    | Some lines' =>
        match write_back st.2 lines' with
        | Raised w1 => (lines', w1)
        | Completed _ => st
        end
    | None => st
    end
  else st.

(** The list and the file when the loop comes to the pattern at index [k],
    the attempts of the patterns before it having failed. *)
Definition state_before (patterns : list pattern) (k : nat)
    (st : list string * world) : list string * world :=
  fold_left after_failed_attempt (take k patterns) st.

End Attempts.

(** The number of lines that the last write of [used] that raised after
    the opening had flushed. *)
Fixpoint last_write_raises (used : list write_outcome) : option nat :=
  match used with
  | [] => None
  | o :: rest =>
      match last_write_raises rest with
      | Some flushed => Some flushed
      | None =>
          match o with
          | write_raises flushed => Some flushed
          | _ => None
          end
      end
  end.

(** A class with two patterns that both match any line: the callable of
    the first raises, the second is the variable-key rule of KeyError. *)
Definition raising_then_variable_key : list pattern :=
  [ {| detect := re_search re_anything;
       fix_ := fix_fn (fun line indent error_msg => None);
       multiline := false |};
    variable_key_pattern ].

(** A function whose variable has been initialised by an earlier patch. *)
Definition already_patched_function : list string :=
  [ ln "def total(items):";
    ln "    count = None  # Initialize to fix UnboundLocalError";
    ln "    for i in items:";
    ln "        count += i";
    ln "    return count" ].

Definition unbound_message : string :=
  "UnboundLocalError: cannot access local variable 'count' where it is not associated with a value".


(** A traceback with two frames of the script, one of a helper module of
    the user and two of the interpreter and its library. *)
Definition file_line (path : string) (n : string) (where_ : string) : string :=
  "  File " +:+ dq +:+ path +:+ dq +:+ ", line " +:+ n +:+ ", in " +:+ where_.

Definition sample_traceback : string :=
  join NL
    [ "Traceback (most recent call last):";
      file_line "app.py" "40" "<module>";
      "    main()";
      file_line "app.py" "12" "main";
      "    cfg = json.loads(raw)";
      file_line "helpers.py" "7" "parse";
      "    return json.loads(raw)";
      file_line "/usr/lib/python3.11/json/decoder.py" "355" "raw_decode";
      "    raise JSONDecodeError(msg, s, pos)";
      file_line "<frozen importlib._bootstrap>" "241" "_call";
      "json.decoder.JSONDecodeError: Expecting value: line 1 column 1 (char 0)" ]
  +:+ NL.


(** ** Sessions *)

Definition session_of (st : state) : session :=
  match st with
  | Running s => s
  | Finished _ s => s
  end.

(** The signature of a patch: the failure class and the line. *)
Definition signature : Type := string * nat.

Definition descriptor_of (sg : signature) : string :=
  error_descriptor sg.1 sg.2.

(** What one pass through the body of the loop does to the counters of
    the session [s]: it ends the session and records nothing, or it goes
    on and records one descriptor that was not recorded before. *)
Inductive body_result (s : session) : state -> Prop :=
| body_break (o : outcome) (s' : session) :
    iteration s' = iteration s + 1 ->
    fixed_errors s' = fixed_errors s ->
    body_result s (Finished o s')
| body_continue (s' : session) (sg : signature) :
    iteration s' = iteration s + 1 ->
    fixed_errors s' = fixed_errors s ++ [descriptor_of sg] ->
    descriptor_of sg ∉ fixed_errors s ->
    body_result s (Running s').

(** A script whose run reports the same KeyError at line 1 whatever the
    file holds. *)
Definition stubborn_traceback : string :=
  join NL
    [ "Traceback (most recent call last):";
      file_line "app.py" "1" "<module>";
      "    x = d['a']['b']";
      "KeyError: 'b'" ]
  +:+ NL.

Definition stubborn_run (turn : nat) (w : world) : option string :=
  Some stubborn_traceback.


(** ** Lines as [readlines] yields them *)

(** A line that ends with its LF and holds no other LF and no CR. *)
Definition terminated_line (l : string) : Prop :=
  exists body, l = body +:+ NL
               /\ has_char LF body = false /\ has_char CR body = false.

(** No LF and no CR in the text. *)
Definition one_line (s : string) : Prop :=
  has_char LF s = false /\ has_char CR s = false.

(** Every character of the string satisfies [p]. *)
Fixpoint all_chars (p : ascii -> bool) (s : string) : bool :=
  match s with
  | EmptyString => true
  | String c s' => p c && all_chars p s'
  end.


(** A chained access in the header of a loop. *)
Definition loop_over_chained_access : list string :=
  [ ln "for k in d['a']['b']:";
    ln "    print(k)";
    ln "x = 1" ].


(** ** The NameError and ImportError helpers (lines 77-100) and their
    entries in the registry (lines 344-375) *)

(** The first group of a match, at the head of [s], of
    [name '(\w+)' is not defined]. *)
Definition name_not_defined_at (s : string) : option string :=
  match strip_prefix "name '" s with
  | Some rest =>
      match span_while is_word rest with
      | (EmptyString, _) => None
      | (var_name, rest') =>
          match strip_prefix "' is not defined" rest' with
          | Some _ => Some var_name
          | None => None
          end
      end
  | None => None
  end.

Definition search_name_not_defined (error_msg : string) : option string :=
  snd <$> leftmost name_not_defined_at error_msg.

Definition _fix_name_error (line indent error_msg : string) : string :=
  match search_name_not_defined error_msg with
  | Some var_name =>
      indent +:+ var_name +:+ " = None  # Initialize variable" +:+ NL +:+ line
  | None => line
  end.

(** The first group of a match, at the head of [s], of
    [No module named '(\w+)']. *)
Definition no_module_at (s : string) : option string :=
  match strip_prefix "No module named '" s with
  | Some rest =>
      match span_while is_word rest with
      | (EmptyString, _) => None
      | (module_name, String c _) =>
          if Ascii.eqb c "'" then Some module_name else None
      | (_, EmptyString) => None
      end
  | None => None
  end.

Definition search_no_module (error_msg : string) : option string :=
  snd <$> leftmost no_module_at error_msg.

Definition _fix_import_error (line indent error_msg : string) : string :=
  match search_no_module error_msg with
  | Some module_name =>
      (indent +:+ "try:" +:+ NL)
      +:+ (indent +:+ "    " +:+ strip line +:+ NL)
      +:+ (indent +:+ "except (ImportError, ModuleNotFoundError):" +:+ NL)
      +:+ (indent +:+ "    # Module '" +:+ module_name
           +:+ "' not installed. Run: pip install " +:+ module_name +:+ NL)
      +:+ (indent +:+ "    pass" +:+ NL)
  | None => line
  end.

(** [import\s+] *)
Definition re_import : regex := Cat (lit "import") (plus space).

Definition name_error_pattern : pattern :=
  {| detect := re_search re_anything;
     fix_ := fix_fn (fun line indent error_msg =>
               Some (_fix_name_error line indent error_msg));
     multiline := false |}.

Definition NameError_patterns : list pattern := [name_error_pattern].

Definition import_error_pattern : pattern :=
  {| detect := re_search re_import;
     fix_ := fix_fn (fun line indent error_msg =>
               Some (_fix_import_error line indent error_msg));
     multiline := true |}.

Definition ImportError_patterns : list pattern := [import_error_pattern].

Definition ModuleNotFoundError_patterns : list pattern := [import_error_pattern].

(** The excerpt of the registry with these three classes added. *)
Definition ERROR_DATABASE_names : database :=
  <["ModuleNotFoundError" := ModuleNotFoundError_patterns]>
    (<["ImportError" := ImportError_patterns]>
       (<["NameError" := NameError_patterns]> ERROR_DATABASE_excerpt)).


(** ** One turn of the loop in detail *)

(** What the statement after the loop prints. *)
Definition timeout_report (max_iterations turns : nat) : list event :=
  if max_iterations <=? turns then [TIMEOUT; RESTORE] else [].

(** What one pass through the body does to the session [s], when [clean]
    tells whether the run of the target reported nothing.  The pass ends
    the session, with the record as it was, the file as it was unless a
    write of the pass raised, and a last message of its own before the
    report of the bound; or the loop goes on with one more descriptor on
    record. *)
Inductive turn_result (max_iterations : nat) (clean : bool) (s : session)
  : state -> Prop :=
| turn_ends (o : outcome) (s' : session) (evs : list event) (e : event) :
    o <> IterationLimitReached ->
    (o = Converged <-> clean = true) ->
    last evs = Some e ->
    e <> RESTORE ->
    iteration s' = iteration s + 1 ->
    fixed_errors s' = fixed_errors s ->
    (upcoming (disk s') = upcoming (disk s) -> disk s' = disk s) ->
    (next_write (disk s) = write_completes -> disk s' = disk s) ->
    printed s' = printed s ++ evs
                 ++ timeout_report max_iterations (iteration s + 1) ->
    turn_result max_iterations clean s (Finished o s')
| turn_goes_on (s' : session) (sg : signature) :
    clean = false ->
    iteration s' = iteration s + 1 ->
    fixed_errors s' = fixed_errors s ++ [descriptor_of sg] ->
    turn_result max_iterations clean s (Running s').

(** The run of the target in the next turn of [s] reports nothing. *)
Definition run_is_clean (run_and_capture_error : nat -> world -> option string)
    (s : session) : bool :=
  negb (truthy_str
          (default "" (run_and_capture_error (iteration s + 1) (disk s)))).

(** A target that runs without error. *)
Definition clean_run (turn : nat) (w : world) : option string := None.


(** ** The two ValueError entries of the registry (lines 291-310 and
    668-682)

    The dictionary display of the source has the key ['ValueError'] twice;
    the entries are inserted in the order of the source. *)

(** [re.search] of [\b] followed by [r]: a match of [r] that starts where a
    word character meets a character that is none, or an end of the string.
    [prev_word] tells whether the character before [s] is a word
    character. *)
Fixpoint search_at_boundary (r : regex) (s : string) (prev_word : bool) : bool :=
  (xorb prev_word
     match s with
     | EmptyString => false
     | String c _ => is_word c
     end
   && re_match r s)
  ||
  match s with
  | EmptyString => false
  | String c s' => search_at_boundary r s' (is_word c)
  end.

(** [(max|min)\s*\(([^)]+)\)] after the [\b] *)
Definition re_max_min_call : regex :=
  Cat (Alt (lit "max") (lit "min"))
    (Cat (Star space)
       (Cat (chr "(")
          (Cat (plus (Class (fun c => negb (Ascii.eqb c ")")))) (chr ")")))).

(** [int\s*\(] and [float\s*\(] *)
Definition re_int_call : regex := Cat (lit "int") (Cat (Star space) (chr "(")).
Definition re_float_call : regex := Cat (lit "float") (Cat (Star space) (chr "(")).

(** [int\s*\(|float\s*\(] *)
Definition re_int_or_float_call : regex := Alt re_int_call re_float_call.

(** [\.split\s*\(] *)
Definition re_split_call : regex :=
  Cat (lit ".split") (Cat (Star space) (chr "(")).

Definition wrap_value_error : fix_kind :=
  fix_fn (fun line indent error_msg =>
            Some (wrap_in_try_except line "ValueError" (len indent))).

Definition ValueError_patterns_first : list pattern :=
  [ {| detect := fun line => search_at_boundary re_max_min_call line false;
       fix_ := wrap_value_error; multiline := true |};
    {| detect := fun line => search_at_boundary re_int_call line false;
       fix_ := wrap_value_error; multiline := true |};
    {| detect := fun line => search_at_boundary re_float_call line false;
       fix_ := wrap_value_error; multiline := true |} ].

Definition ValueError_patterns_second : list pattern :=
  [ {| detect := re_search re_int_or_float_call;
       fix_ := wrap_value_error; multiline := true |};
    {| detect := re_search re_split_call;
       fix_ := wrap_value_error; multiline := true |} ].

Definition ERROR_DATABASE_values : database :=
  <["ValueError" := ValueError_patterns_second]>
    (<["ValueError" := ValueError_patterns_first]> ERROR_DATABASE_names).


(** The line that [_fix_unbound_local_error] inserts for the variable
    [var_name] in a function whose header is the line [header]. *)
Definition initializer_line (header var_name : string) : string :=
  (get_indent header +:+ "    ") +:+ var_name
  +:+ " = None  # Initialize to fix UnboundLocalError" +:+ NL.

(** A function with a docstring of two lines and a late assignment. *)
Definition function_with_docstring : list string :=
  [ ln "import sys";
    ln "def total(items):";
    ln "    '''Sum of the items,";
    ln "    skipping nothing.'''";
    ln "    for i in items:";
    ln "        count += i";
    ln "    return count" ].


(** * Properties *)

(** A goal about closed terms is settled by evaluation. *)
Ltac by_evaluation := vm_compute; repeat split; reflexivity.

(** ** The primitives on small inputs *)

Example strip_example :
  strip ("  a b " +:+ NL) = "a b"
  /\ lstrip (String (ascii_of_nat 9) " x" +:+ NL) = "x" +:+ NL
  /\ rstrip (" x " +:+ NL) = " x".
Proof. by_evaluation. Qed.

Example count_example :
  count "abcabc" "bc" = 2
  /\ count (triple_dq +:+ "doc" +:+ triple_dq) triple_dq = 2
  /\ count "aaa" "aa" = 1.
Proof. by_evaluation. Qed.

Example readlines_example :
  readlines ("a" +:+ String CR NL +:+ "b" +:+ String CR "c" +:+ NL +:+ NL +:+ "d")
  = [ln "a"; ln "b"; ln "c"; ln ""; "d"].
Proof. by_evaluation. Qed.

Example split_example :
  split ("a" +:+ NL +:+ NL +:+ "b") LF = ["a"; ""; "b"]
  /\ split "" LF = [""]
  /\ before_first ":" "a:b:c" = "a"
  /\ after_last "." "json.decoder.JSONDecodeError" = "JSONDecodeError".
Proof. by_evaluation. Qed.

Example def_header_example :
  re_match def_header "  def f (x):" = true
  /\ re_match def_header "x def f(" = false
  /\ re_match def_header "def(" = false.
Proof. by_evaluation. Qed.

Example key_patterns_example :
  re_search re_chained_access "a[1] [2]" = true
  /\ re_search re_literal_key ("d['a" +:+ dq +:+ "]") = false
  /\ re_search re_literal_key ("d[" +:+ dq +:+ "a" +:+ dq +:+ "]") = true
  /\ sub_first literal_key_at "x = d['a']['b'] + e[k]"
     = "x = d.get('a', None)['b'] + e[k]".
Proof. by_evaluation. Qed.

Example frame_example :
  frame_of_line ("x File " +:+ dq +:+ "a File " +:+ dq +:+ "b.py" +:+ dq
                 +:+ ", line 007, in")
  = Some ("b.py", 7).
Proof. by_evaluation. Qed.

Example local_variable_example :
  search_local_variable "local variable 'x y' local variable 'zz' referenced"
  = Some "zz".
Proof. by_evaluation. Qed.

Example keyword_example :
  search_keyword "for" "x = forward" false = false
  /\ search_keyword "for" "for x in y:" false = true
  /\ search_keyword "while" "x=(while)" false = true.
Proof. by_evaluation. Qed.

Example descriptor_example : error_descriptor "KeyError" 12 = "KeyError at line 12".
Proof. by_evaluation. Qed.

(** On a line with a literal key and a variable key, the second and the
    third pattern of KeyError both match and the second is applied. *)
Example single_access_precedence :
  detect chained_access_pattern (ln "  v = d['a'] + e[k]") = false
  /\ detect literal_key_pattern (ln "  v = d['a'] + e[k]") = true
  /\ detect variable_key_pattern (ln "  v = d['a'] + e[k]") = true
  /\ fix_error ERROR_DATABASE_excerpt (file_of_lines [ln "  v = d['a'] + e[k]"])
       "app.py" "KeyError" 1 "KeyError: 'a'"
     = (true, file_of_lines [ln "  v = d.get('a', None) + e[k]"],
        [FIX_applied "KeyError" 1 2]).
Proof. by_evaluation. Qed.

(** The UnboundLocalError patch on a function with a docstring: the
    initializer goes after the docstring. *)
Example unbound_local_patch :
  fix_error ERROR_DATABASE_excerpt
    (file_of_lines
       [ ln "def total(items):";
         ln "    '''Sum of the items.'''";
         ln "    for i in items:";
         ln "        count += i";
         ln "    return count" ])
    "app.py" "UnboundLocalError" 4 unbound_message
  = (true,
     file_of_lines
       [ ln "def total(items):";
         ln "    '''Sum of the items.'''";
         ln "    count = None  # Initialize to fix UnboundLocalError";
         ln "    for i in items:";
         ln "        count += i";
         ln "    return count" ],
     [FIX_special "UnboundLocalError"]).
Proof. by_evaluation. Qed.

(** ** Strings and steps on the disk *)

Lemma append_cons (c : ascii) (s t : string) :
  String c s +:+ t = String c (s +:+ t).
Proof. reflexivity. Qed.

Lemma append_nil_r (s : string) : s +:+ "" = s.
Proof.
  induction s as [|c s IH]; [reflexivity |].
  rewrite append_cons. f_equal. exact IH.
Qed.

Lemma append_assoc (a b c : string) : (a +:+ b) +:+ c = a +:+ (b +:+ c).
Proof.
  induction a as [|x a IH]; [reflexivity |].
  rewrite !append_cons. f_equal. exact IH.
Qed.

Lemma run_ops_appends (chunks : list string) (t : string) :
  run_ops (map Append chunks) t = t +:+ concat chunks.
Proof.
  revert t. induction chunks as [|c chunks IH]; intros t; simpl.
  - now rewrite append_nil_r.
  - unfold run_ops in IH. rewrite IH. apply append_assoc.
Qed.

Lemma write_back_ops_complete (lines : list string) (t : string) :
  run_ops (write_back_ops lines) t = concat lines.
Proof. unfold write_back_ops. simpl. apply run_ops_appends. Qed.

(** ** Block spans *)

Lemma block_tail_span (base_indent : nat) (rest : list string) :
  exists body after,
    rest = body ++ after
    /\ List.length (block_tail base_indent rest) = List.length body
    /\ Forall (fun l => continues_block base_indent l = true) body
    /\ match after with
       | [] => True
       | l :: _ => continues_block base_indent l = false
       end.
Proof.
  induction rest as [|line rest IH].
  - exists [], []. repeat split; constructor.
  - destruct IH as (body & after & Hrest & Hlen & Hall & Hstop).
    simpl. unfold continues_block in *.
    destruct (String.eqb (strip line) "") eqn:Hblank.
    + exists (line :: body), after. simpl. repeat split.
      * now rewrite Hrest.
      * now rewrite Hlen.
      * constructor; [now rewrite Hblank | exact Hall].
      * exact Hstop.
    + destruct (indent_width line <=? base_indent) eqn:Hle.
      * exists [], (line :: rest). simpl. repeat split; [constructor |].
        rewrite Hblank. simpl.
        apply Nat.leb_le in Hle. apply Nat.ltb_ge. exact Hle.
      * exists (line :: body), after. simpl. repeat split.
        -- now rewrite Hrest.
        -- now rewrite Hlen.
        -- constructor; [| exact Hall].
           rewrite Hblank. simpl.
           apply Nat.leb_gt in Hle. apply Nat.ltb_lt. exact Hle.
        -- exact Hstop.
Qed.


Lemma get_indented_block_span (lines : list string) (start_idx : nat)
    (first : string) :
  lines !! start_idx = Some first ->
  exists body after,
    drop start_idx lines = first :: body ++ after
    /\ List.length (get_indented_block lines start_idx).1 = S (List.length body)
    /\ (get_indented_block lines start_idx).2 = indent_width first
    /\ Forall (fun l => continues_block (indent_width first) l = true) body
    /\ match after with
       | [] => True
       | l :: _ => continues_block (indent_width first) l = false
       end.
Proof.
  intros Hfirst. unfold get_indented_block.
  rewrite (drop_S _ _ _ Hfirst).
  destruct (block_tail_span (indent_width first) (drop (S start_idx) lines))
    as (body & after & Hrest & Hlen & Hall & Hstop).
  exists body, after. simpl. rewrite Hlen, Hrest. auto.
Qed.

Lemma block_tail_entries (base_indent : nat) (body after : list string) :
  Forall (fun l => continues_block base_indent l = true) body ->
  match after with
  | [] => True
  | l :: _ => continues_block base_indent l = false
  end ->
  block_tail base_indent (body ++ after) = map block_entry body.
Proof.
  intros Hall Hstop. induction Hall as [|line body Hline _ IH].
  - destruct after as [|l after]; [reflexivity |]. simpl.
    unfold continues_block in Hstop.
    apply orb_false_iff in Hstop as [Hblank Hdeep]. rewrite Hblank.
    apply Nat.ltb_ge in Hdeep. apply Nat.leb_le in Hdeep. now rewrite Hdeep.
  - simpl. unfold block_entry. unfold continues_block in Hline.
    destruct (String.eqb (strip line) "") eqn:Hblank; [now rewrite IH |].
    simpl in Hline. apply Nat.ltb_lt in Hline.
    replace (indent_width line <=? base_indent) with false
      by (symmetry; apply Nat.leb_gt; exact Hline).
    now rewrite IH.
Qed.

(** C3, as the code has it: a patch of Block scope replaces the failing
    line and the longest run of lines right after it that are blank or
    indented strictly deeper than the failing line.  The run stops at the
    first line that is not blank and not deeper, or at the end of the file.
    The lines before the failing line and from that stop on are kept, and
    what stands between them in the new buffer is exactly the lines made of
    the replacement text: for the three block classes the text that
    [wrap_block_in_try_except] makes of the failing line and the run, for
    any other class what the callable makes of the failing line. *)
Theorem block_scope_replaces_blank_or_deeper_run
    (f : string -> string -> string -> option string) (p : pattern)
    (lines : list string) (error_type : string) (line_number : nat)
    (target_line indent error_message : string) (lines' : list string) :
  needs_block_wrap p target_line = true ->
  lines !! (line_number - 1) = Some target_line ->
  apply_callable f p lines error_type line_number target_line indent
    error_message = Some lines' ->
  exists body after fixed,
    lines = take (line_number - 1) lines ++ target_line :: body ++ after
    /\ Forall (fun l => continues_block (indent_width target_line) l = true) body
    /\ match after with
       | [] => True
       | l :: _ => continues_block (indent_width target_line) l = false
       end
    /\ (if in_block_classes error_type
        then Some (wrap_block_in_try_except
                     (rstrip target_line :: map block_entry body)
                     (indent_width target_line) error_type)
        else f target_line indent error_message) = Some fixed
    /\ lines' = take (line_number - 1) lines ++ new_lines_of fixed ++ after.
Proof.
  intros Hwrap Htarget Happly.
  destruct (get_indented_block_span lines (line_number - 1) target_line Htarget)
    as (body & after & Hdrop & Hlen & Hbase & Hall & Hstop).
  assert (Hblock : get_indented_block lines (line_number - 1)
                   = (rstrip target_line :: map block_entry body,
                      indent_width target_line)).
  { unfold get_indented_block. rewrite Hdrop.
    now rewrite (block_tail_entries _ _ _ Hall Hstop). }
  unfold apply_callable in Happly. rewrite Hwrap, Hblock in Happly.
  assert (Hafter : drop (line_number - 1
                         + List.length (rstrip target_line
                                        :: map block_entry body)) lines
                   = after).
  { simpl. rewrite length_map, <- drop_drop, Hdrop. simpl.
    rewrite drop_app_length. reflexivity. }
  assert (Hsplit : lines = take (line_number - 1) lines
                           ++ target_line :: body ++ after).
  { rewrite <- Hdrop. symmetry. apply take_drop. }
  destruct (if in_block_classes error_type
            then Some (wrap_block_in_try_except
                         (rstrip target_line :: map block_entry body)
                         (indent_width target_line) error_type)
            else f target_line indent error_message) as [fixed|] eqn:Hfixed;
    simpl in Happly; [| discriminate Happly].
  injection Happly as <-.
  exists body, after, fixed.
  simpl in Hafter. rewrite Hafter. auto.
Qed.

Lemma block_scope_replaces_blank_or_deeper_run_witness :
  exists body after fixed,
    nested_with_block = take (2 - 1) nested_with_block
                        ++ ln "    with open(p) as f:" :: body ++ after
    /\ Forall (fun l => continues_block
                          (indent_width (ln "    with open(p) as f:")) l = true)
         body
    /\ match after with
       | [] => True
       | l :: _ =>
           continues_block (indent_width (ln "    with open(p) as f:")) l = false
       end
    /\ (if in_block_classes "FileNotFoundError"
        then Some (wrap_block_in_try_except
                     (rstrip (ln "    with open(p) as f:")
                      :: map block_entry body)
                     (indent_width (ln "    with open(p) as f:"))
                     "FileNotFoundError")
        else Some (wrap_in_try_except (ln "    with open(p) as f:")
                     "FileNotFoundError" (len "    "))) = Some fixed
    /\ nested_with_block_patched
       = take (2 - 1) nested_with_block ++ new_lines_of fixed ++ after.
Proof.
  apply (block_scope_replaces_blank_or_deeper_run
           (fun line indent _ =>
              Some (wrap_in_try_except line "FileNotFoundError" (len indent)))
           open_call_pattern nested_with_block "FileNotFoundError" 2
           (ln "    with open(p) as f:") "    " "").
  - vm_compute. reflexivity.
  - vm_compute. reflexivity.
  - vm_compute. reflexivity.
Defined.

(** C3, refuted: the span that the code replaces goes on past a blank line.
    The run of lines indented strictly deeper than the failing line ends
    at the blank line after the first statement of the block, so the span of
    the design document has two lines; the code replaces five, up to the
    [return] that is indented like the failing line. *)
Lemma block_span_takes_blank_line :
  List.length (get_indented_block nested_with_block 1).1 = 5
  /\ spec_block_span nested_with_block 1 = 2
  /\ (indent_width (ln "") <=? indent_width (ln "    with open(p) as f:")) = true
  /\ fix_error ERROR_DATABASE_excerpt (file_of_lines nested_with_block)
       "app.py" "FileNotFoundError" 2 ""
     = (true, file_of_lines nested_with_block_patched,
        [FIX_applied "FileNotFoundError" 2 1]).
Proof. vm_compute. repeat split; reflexivity. Qed.

(** C4: the blank line inside the block of a [with] statement is gone from
    the file after the patch.  [wrap_block_in_try_except] keeps it as an
    empty line of its result, and the filter of [fix_error] on the lines of
    that result drops it. *)
Theorem block_patch_drops_blank_lines :
  wrap_block_in_try_except (get_indented_block with_block_blank_inside 0).1 0
    "FileNotFoundError"
  = concat [ ln "try:";
             ln "    with open(p) as f:";
             ln "        a = f.read()";
             ln "";
             ln "        b = len(a)";
             ln "except FileNotFoundError:";
             ln "    return {}" ]
  /\ fix_error ERROR_DATABASE_excerpt (file_of_lines with_block_blank_inside)
       "app.py" "FileNotFoundError" 1 ""
     = (true,
        file_of_lines
          [ ln "try:";
            ln "    with open(p) as f:";
            ln "        a = f.read()";
            ln "        b = len(a)";
            ln "except FileNotFoundError:";
            ln "    return {}" ],
        [FIX_applied "FileNotFoundError" 1 1]).
Proof. vm_compute. split; reflexivity. Qed.


Lemma crashed_after_flushed (lines : list string) (t : string) (k : nat) :
  crashed_after (S k) lines t = concat (take k lines).
Proof.
  unfold crashed_after, write_back_ops. simpl.
  rewrite firstn_map. change (fold_left run_op) with run_ops.
  apply run_ops_appends.
Qed.


(** ** The patch engine *)

Lemma world_eq (w w' : world) :
  text w' = text w -> readable w' = readable w -> writable w' = writable w ->
  upcoming w' = upcoming w ->
  w' = w.
Proof. destruct w, w'. simpl. now intros -> -> -> ->. Qed.

Lemma write_back_written (w : world) (lines : list string) :
  writable w = true -> next_write w = write_completes ->
  write_back w lines = Completed (written w lines).
Proof.
  intros Hw Hnext. unfold write_back, written.
  rewrite Hw, Hnext, write_back_ops_complete. reflexivity.
Qed.

Lemma write_back_completed (w w' : world) (lines : list string) :
  write_back w lines = Completed w' ->
  writable w = true /\ next_write w = write_completes /\ w' = written w lines.
Proof.
  unfold write_back, written. rewrite write_back_ops_complete.
  destruct (writable w); [| discriminate].
  destruct (next_write w); [| discriminate | discriminate].
  now intros [= <-].
Qed.

Lemma write_back_refused (w : world) (lines : list string) :
  writable w = false -> write_back w lines = Raised w.
Proof. intros Hw. unfold write_back. now rewrite Hw. Qed.

(** A write that raises: either the file may not be opened and nothing has
    changed, or the file system has used up one outcome, and the text is the
    old one when [open] raised and the flushed lines when the error came
    later. *)
Lemma write_back_raised (w w1 : world) (lines : list string) :
  write_back w lines = Raised w1 ->
  readable w1 = readable w /\ writable w1 = writable w
  /\ (w1 = w
      \/ exists o, upcoming w = o :: upcoming w1
                   /\ o <> write_completes
                   /\ match o with
                      | write_raises flushed =>
                          text w1 = concat (take flushed lines)
                      | _ => text w1 = text w
                      end).
Proof.
  unfold write_back, next_write.
  destruct (writable w) eqn:Hw; [| intros [= <-]; auto].
  destruct (upcoming w) as [|o rest] eqn:Hup; [discriminate |].
  destruct o as [| |flushed]; [discriminate | |]; intros [= <-];
    cbn [text readable writable upcoming tail];
    (split; [reflexivity |]); (split; [reflexivity |]); right.
  - exists open_raises. repeat split. discriminate.
  - exists (write_raises flushed). repeat split; [discriminate |].
    apply crashed_after_flushed.
Qed.

Lemma after_printing_ok (printed : list event) (r : bool * world * list event) :
  (after_printing printed r).1.1 = r.1.1.
Proof. now destruct r as [[ok w'] evs]. Qed.

Section PatternLoop.

Variables (error_type : string) (line_number : nat).
Variables (target_line indent error_message : string).

Local Abbreviation completes :=
  (attempt_completes error_type line_number target_line indent error_message).
Local Abbreviation fails :=
  (attempt_fails error_type line_number target_line indent error_message).
Local Abbreviation after_failed :=
  (after_failed_attempt error_type line_number target_line indent
     error_message).
Local Abbreviation before :=
  (state_before error_type line_number target_line indent error_message).
Local Abbreviation loop patterns pattern_idx lines w :=
  (try_patterns patterns pattern_idx lines w error_type line_number
     target_line indent error_message).

(** An attempt goes through or fails, never both. *)
Lemma attempt_completes_or_fails (p : pattern) (lines : list string)
    (w : world) :
  (exists w', completes p lines w w') \/ fails p lines w.
Proof.
  unfold attempt_completes, attempt_fails.
  destruct (detect p target_line); [| right; now left].
  destruct (patch_of p lines error_type line_number target_line indent
              error_message) as [lines'|];
    [| right; right; left; split; reflexivity].
  destruct (write_back w lines') as [w'|w1] eqn:Hwrite.
  - left. exists w'. split; [reflexivity |]. now exists lines'.
  - right. right. right. split; [reflexivity |]. now exists lines', w1.
Qed.

Lemma attempt_fails_not_completes (p : pattern) (lines : list string)
    (w w' : world) :
  fails p lines w -> ~ completes p lines w w'.
Proof.
  intros [H | [[_ H] | [_ (l & w1 & Hp & Hw)]]] [Hdet (l' & Hp' & Hw')];
    congruence.
Qed.

(** One turn of the loop when the attempt of the pattern goes through: the
    patch is written and the loop ends. *)
Lemma try_patterns_attempt_completes (p : pattern) (rest : list pattern)
    (pattern_idx : nat) (lines : list string) (w w' : world) :
  completes p lines w w' ->
  loop (p :: rest) pattern_idx lines w
  = (true, w', [fix_event p error_type line_number pattern_idx]).
Proof.
  unfold attempt_completes, patch_of, fix_event.
  intros [Hdet (lines' & Hpatch & Hwrite)].
  cbn [try_patterns]. rewrite Hdet. destruct (fix_ p) as [|f].
  - destruct (_fix_unbound_local_error lines line_number indent error_message)
      as [| |l'|]; try discriminate Hpatch.
    injection Hpatch as ->. now rewrite Hwrite.
  - rewrite Hpatch. now rewrite Hwrite.
Qed.

(** One turn of the loop when the attempt fails: the loop goes on to the
    next pattern, with the list and the file as the attempt left them. *)
Lemma try_patterns_attempt_fails (p : pattern) (rest : list pattern)
    (pattern_idx : nat) (lines : list string) (w : world) :
  fails p lines w ->
  exists printed,
    loop (p :: rest) pattern_idx lines w
    = after_printing printed
        (loop rest (S pattern_idx) (after_failed (lines, w) p).1
           (after_failed (lines, w) p).2).
Proof.
  intros Hfail.
  assert (Hno : forall l' w', patch_of p lines error_type line_number
                  target_line indent error_message = Some l' ->
                  write_back w l' = Completed w' ->
                  detect p target_line = true -> False).
  { intros l' w' Hp Hw Hdet.
    apply (attempt_fails_not_completes p lines w w' Hfail).
    split; [exact Hdet |]. now exists l'. }
  clear Hfail. revert Hno.
  unfold after_failed_attempt, patch_of. cbn [fst snd try_patterns].
  intros Hno.
  destruct (detect p target_line); [| now exists []].
  destruct (fix_ p) as [|f].
  - destruct (_fix_unbound_local_error lines line_number indent error_message)
      as [| |l'|]; try (now eexists).
    destruct (write_back w l') as [w'|w1] eqn:Hwrite; [| now eexists].
    exfalso. now apply (Hno l' w').
  - destruct (apply_callable f p lines error_type line_number target_line
                indent error_message) as [l'|]; [| now eexists].
    destruct (write_back w l') as [w'|w1] eqn:Hwrite; [| now eexists].
    exfalso. now apply (Hno l' w').
Qed.

Lemma state_before_S (p : pattern) (rest : list pattern) (k : nat)
    (st : list string * world) :
  before (p :: rest) (S k) st = before rest k (after_failed st p).
Proof. reflexivity. Qed.

(** The first pattern whose attempt goes through, the attempts before it
    having failed, ends the loop: its write is the file, and the last line
    printed names it. *)
Lemma try_patterns_first_completing (patterns : list pattern) :
  forall k pattern_idx lines w p w',
    patterns !! k = Some p ->
    (forall j q, j < k -> patterns !! j = Some q ->
       fails q (before patterns j (lines, w)).1 (before patterns j (lines, w)).2) ->
    completes p (before patterns k (lines, w)).1
      (before patterns k (lines, w)).2 w' ->
    exists evs,
      loop patterns pattern_idx lines w = (true, w', evs)
      /\ last evs = Some (fix_event p error_type line_number (pattern_idx + k)).
Proof.
  induction patterns as [|p0 rest IH]; intros k idx lines w p w' Hk Hfails Hcomp;
    [discriminate Hk |].
  destruct k as [|k].
  - injection Hk as ->.
    exists [fix_event p error_type line_number idx]. split.
    + apply try_patterns_attempt_completes. exact Hcomp.
    + rewrite Nat.add_0_r. reflexivity.
  - pose proof (Hfails 0 p0 (Nat.lt_0_succ k) eq_refl) as H0.
    destruct (try_patterns_attempt_fails p0 rest idx lines w H0) as [printed ->].
    rewrite state_before_S in Hcomp.
    assert (Hfails' : forall j q, j < k -> rest !! j = Some q ->
              fails q (before rest j (after_failed (lines, w) p0)).1
                (before rest j (after_failed (lines, w) p0)).2).
    { intros j q Hj Hq. apply (Hfails (S j) q); [lia | exact Hq]. }
    destruct (after_failed (lines, w) p0) as [l1 w1].
    destruct (IH k (S idx) l1 w1 p w' Hk Hfails' Hcomp) as (evs & Hrun & Hlast).
    exists (printed ++ evs). cbn [fst snd]. rewrite Hrun.
    split; [reflexivity |].
    rewrite last_app, Hlast. f_equal. f_equal. lia.
Qed.

(** When the patterns before it do not match the line, they leave the list
    and the file alone and print nothing. *)
Lemma try_patterns_first_match (patterns : list pattern) :
  forall k pattern_idx lines w p w',
    patterns !! k = Some p ->
    (forall j q, j < k -> patterns !! j = Some q ->
       detect q target_line = false) ->
    completes p lines w w' ->
    before patterns k (lines, w) = (lines, w)
    /\ loop patterns pattern_idx lines w
       = (true, w', [fix_event p error_type line_number (pattern_idx + k)]).
Proof.
  induction patterns as [|p0 rest IH]; intros k idx lines w p w' Hk Hskip Hcomp;
    [discriminate Hk |].
  destruct k as [|k].
  - injection Hk as ->. split; [reflexivity |].
    rewrite Nat.add_0_r. now apply try_patterns_attempt_completes.
  - pose proof (Hskip 0 p0 (Nat.lt_0_succ k) eq_refl) as H0.
    assert (Hskip' : forall j q, j < k -> rest !! j = Some q ->
              detect q target_line = false).
    { intros j q Hj Hq. apply (Hskip (S j) q); [lia | exact Hq]. }
    destruct (IH k (S idx) lines w p w' Hk Hskip' Hcomp) as [Hst Hrun].
    split.
    + rewrite state_before_S. unfold after_failed_attempt. now rewrite H0.
    + cbn [try_patterns]. rewrite H0, Hrun. unfold after_printing. simpl.
      do 3 f_equal. lia.
Qed.

(** The loop fails exactly when the attempt of every pattern fails in its
    turn. *)
Lemma try_patterns_fails_iff (patterns : list pattern) :
  forall pattern_idx lines w,
    (loop patterns pattern_idx lines w).1.1 = false
    <-> (forall k p, patterns !! k = Some p ->
           fails p (before patterns k (lines, w)).1
             (before patterns k (lines, w)).2).
Proof.
  induction patterns as [|p0 rest IH]; intros idx lines w.
  { split; [intros _ k p Hk; discriminate Hk | reflexivity]. }
  destruct (attempt_completes_or_fails p0 lines w) as [[w0 Hc] | Hf].
  - rewrite (try_patterns_attempt_completes p0 rest idx lines w w0 Hc).
    split; [discriminate |]. intros Hall. exfalso.
    apply (attempt_fails_not_completes p0 lines w w0 (Hall 0 p0 eq_refl) Hc).
  - destruct (try_patterns_attempt_fails p0 rest idx lines w Hf) as [printed ->].
    rewrite after_printing_ok.
    pose proof (fun j => state_before_S p0 rest j (lines, w)) as HS.
    destruct (after_failed (lines, w) p0) as [l1 w1]. cbn [fst snd].
    rewrite (IH (S idx) l1 w1). split.
    + intros Hall [|k] p Hk; [now injection Hk as <- |].
      rewrite HS. now apply Hall.
    + intros Hall k p Hk. rewrite <- HS. now apply (Hall (S k)).
Qed.

(** A pass over the patterns that succeeds has written the patch of the
    first pattern whose attempt went through. *)
Lemma try_patterns_success (patterns : list pattern) :
  forall pattern_idx lines w w' evs,
    loop patterns pattern_idx lines w = (true, w', evs) ->
    exists k p,
      patterns !! k = Some p
      /\ (forall j q, j < k -> patterns !! j = Some q ->
            fails q (before patterns j (lines, w)).1
              (before patterns j (lines, w)).2)
      /\ completes p (before patterns k (lines, w)).1
           (before patterns k (lines, w)).2 w'
      /\ last evs = Some (fix_event p error_type line_number (pattern_idx + k)).
Proof.
  induction patterns as [|p0 rest IH]; intros idx lines w w' evs Hrun;
    [discriminate Hrun |].
  destruct (attempt_completes_or_fails p0 lines w) as [[w0 Hc] | Hf].
  - rewrite (try_patterns_attempt_completes p0 rest idx lines w w0 Hc) in Hrun.
    injection Hrun as <- <-. exists 0, p0. rewrite Nat.add_0_r.
    split; [reflexivity |]. split; [intros j q Hj; lia |].
    split; [exact Hc | reflexivity].
  - destruct (try_patterns_attempt_fails p0 rest idx lines w Hf)
      as [printed Heq].
    rewrite Heq in Hrun.
    pose proof (fun j => state_before_S p0 rest j (lines, w)) as HS.
    destruct (after_failed (lines, w) p0) as [l1 w1]. cbn [fst snd] in Hrun.
    destruct (loop rest (S idx) l1 w1) as [[ok w2] evs2] eqn:Hrest.
    unfold after_printing in Hrun. injection Hrun as -> -> <-.
    destruct (IH _ _ _ _ _ Hrest) as (k & p & Hk & Hfails & Hcomp & Hlast).
    exists (S k), p. split; [exact Hk |]. split; [| split].
    + intros [|j] q Hj Hq; [now injection Hq as <- |].
      rewrite HS. apply Hfails; [lia | exact Hq].
    + rewrite HS. exact Hcomp.
    + rewrite last_app, Hlast. f_equal. f_equal. lia.
Qed.

(** What a failed attempt does to the file: nothing, unless its write
    raised and used up an outcome of the file system. *)
Lemma after_failed_attempt_file (st : list string * world) (p : pattern) :
  readable (after_failed st p).2 = readable st.2
  /\ writable (after_failed st p).2 = writable st.2
  /\ ((after_failed st p).2 = st.2
      \/ exists o lines',
           detect p target_line = true
           /\ patch_of p st.1 error_type line_number target_line indent
                error_message = Some lines'
           /\ upcoming st.2 = o :: upcoming (after_failed st p).2
           /\ o <> write_completes
           /\ match o with
              | write_raises flushed =>
                  text (after_failed st p).2 = concat (take flushed lines')
              | _ => text (after_failed st p).2 = text st.2
              end).
Proof.
  unfold after_failed_attempt.
  destruct (detect p target_line); [| auto].
  destruct (patch_of p st.1 error_type line_number target_line indent
              error_message) as [lines'|]; [| auto].
  destruct (write_back st.2 lines') as [w'|w1] eqn:Hwrite; [auto |].
  cbn [fst snd].
  destruct (write_back_raised _ _ _ Hwrite) as (Hr & Hw & [-> | (o & Ho)]);
    [auto |].
  split; [exact Hr |]. split; [exact Hw |]. right. now exists o, lines'.
Qed.

(** A failed pass over the patterns has completed no write.  The outcomes
    that its writes have used up are all failures; the file has its old
    text unless one of them came after the opening, and then it has the
    lines that the last such write had flushed. *)
Lemma try_patterns_failure_file (patterns : list pattern) :
  forall pattern_idx lines w w' evs,
    loop patterns pattern_idx lines w = (false, w', evs) ->
    readable w' = readable w /\ writable w' = writable w
    /\ exists used,
         upcoming w = used ++ upcoming w'
         /\ Forall (fun o => o <> write_completes) used
         /\ match last_write_raises used with
            | None => text w' = text w
            | Some flushed =>
                exists k p lines',
                  patterns !! k = Some p
                  /\ detect p target_line = true
                  /\ patch_of p (before patterns k (lines, w)).1 error_type
                       line_number target_line indent error_message
                     = Some lines'
                  /\ text w' = concat (take flushed lines')
            end.
Proof.
  induction patterns as [|p0 rest IH]; intros idx lines w w' evs Hrun.
  { injection Hrun as <- _. repeat split. exists []. repeat split. constructor. }
  destruct (attempt_completes_or_fails p0 lines w) as [[w0 Hc] | Hf].
  { rewrite (try_patterns_attempt_completes p0 rest idx lines w w0 Hc) in Hrun.
    discriminate Hrun. }
  destruct (try_patterns_attempt_fails p0 rest idx lines w Hf) as [printed Heq].
  rewrite Heq in Hrun. clear Heq.
  pose proof (fun j => state_before_S p0 rest j (lines, w)) as HS.
  pose proof (after_failed_attempt_file (lines, w) p0) as Hfile.
  destruct (after_failed (lines, w) p0) as [l1 w1]. cbn [fst snd] in Hrun, Hfile.
  destruct (loop rest (S idx) l1 w1) as [[ok w2] evs2] eqn:Hrest.
  unfold after_printing in Hrun. injection Hrun as -> -> <-.
  destruct (IH _ _ _ _ _ Hrest) as (Hr & Hw & used & Hup & Hall & Hlast).
  destruct Hfile as (Hr1 & Hw1 & Hfile).
  split; [congruence |]. split; [congruence |].
  assert (Hshift : forall flushed,
    (exists k p lines',
       rest !! k = Some p /\ detect p target_line = true
       /\ patch_of p (before rest k (l1, w1)).1 error_type line_number
            target_line indent error_message = Some lines'
       /\ text w' = concat (take flushed lines')) ->
    exists k p lines',
      (p0 :: rest) !! k = Some p /\ detect p target_line = true
      /\ patch_of p (before (p0 :: rest) k (lines, w)).1 error_type
           line_number target_line indent error_message = Some lines'
      /\ text w' = concat (take flushed lines')).
  { intros flushed (k & p & lines' & Hk & Hdet & Hpatch & Htext).
    exists (S k), p, lines'. rewrite HS. auto. }
  destruct Hfile as [-> | (o & lines' & Hdet & Hpatch & Hup1 & Ho & Htext)].
  - exists used. split; [exact Hup |]. split; [exact Hall |].
    destruct (last_write_raises used) as [flushed|]; [| exact Hlast].
    now apply Hshift.
  - exists (o :: used). split; [rewrite Hup1, Hup; reflexivity |].
    split; [now constructor |].
    cbn [last_write_raises].
    destruct (last_write_raises used) as [flushed|]; [now apply Hshift |].
    destruct o as [| |flushed]; [now destruct Ho | congruence |].
    exists 0, p0, lines'. repeat split; try assumption. congruence.
Qed.

End PatternLoop.

(** The steps of [fix_error] before the loop, when they all go through. *)
Lemma fix_error_reaches_loop (ERROR_DATABASE : database) (w : world)
    (file_path error_type : string) (line_number : nat)
    (error_message : string) (patterns : list pattern) (lines : list string)
    (target_line : string) :
  ERROR_DATABASE !! error_type = Some patterns ->
  read_lines w = Some lines ->
  1 <= line_number ->
  lines !! (line_number - 1) = Some target_line ->
  fix_error ERROR_DATABASE w file_path error_type line_number error_message
  = try_patterns patterns 0 lines w error_type line_number target_line
      (get_indent target_line) error_message.
Proof.
  intros Hdb Hread Hpos Htarget. unfold fix_error.
  rewrite Hdb, Hread, Htarget.
  apply lookup_lt_Some in Htarget.
  replace (List.length lines <? line_number) with false
    by (symmetry; apply Nat.ltb_ge; lia).
  replace (line_number <? 1) with false
    by (symmetry; apply Nat.ltb_ge; lia).
  reflexivity.
Qed.

(** The ways of [fix_error] to the loop over the patterns, or to a failure
    before it that leaves everything alone. *)
Lemma fix_error_cases (ERROR_DATABASE : database) (w : world)
    (file_path error_type : string) (line_number : nat)
    (error_message : string) :
  (exists evs,
     fix_error ERROR_DATABASE w file_path error_type line_number error_message
     = (false, w, evs)
     /\ (ERROR_DATABASE !! error_type = None
         \/ read_lines w = None
         \/ exists lines, read_lines w = Some lines
                          /\ (line_number < 1
                              \/ List.length lines < line_number)))
  \/ (exists patterns lines target_line,
        ERROR_DATABASE !! error_type = Some patterns
        /\ read_lines w = Some lines
        /\ 1 <= line_number <= List.length lines
        /\ lines !! (line_number - 1) = Some target_line
        /\ fix_error ERROR_DATABASE w file_path error_type line_number
             error_message
           = try_patterns patterns 0 lines w error_type line_number
               target_line (get_indent target_line) error_message).
Proof.
  destruct (ERROR_DATABASE !! error_type) as [patterns|] eqn:Hdb;
    [| left; unfold fix_error; rewrite Hdb; eexists; split; [reflexivity | auto]].
  destruct (read_lines w) as [lines|] eqn:Hread;
    [| left; unfold fix_error; rewrite Hdb, Hread; eexists;
       split; [reflexivity | auto]].
  destruct (Nat.lt_ge_cases line_number 1) as [Hlow | Hpos].
  { left. unfold fix_error. rewrite Hdb, Hread.
    replace (line_number <? 1) with true by (symmetry; now apply Nat.ltb_lt).
    rewrite orb_true_r. eexists. split; [reflexivity |].
    right. right. exists lines. auto. }
  destruct (Nat.lt_ge_cases (List.length lines) line_number) as [Hhigh | Hin].
  { left. unfold fix_error. rewrite Hdb, Hread.
    replace (List.length lines <? line_number) with true
      by (symmetry; now apply Nat.ltb_lt).
    eexists. split; [reflexivity |]. right. right. exists lines. auto. }
  destruct (lookup_lt_is_Some_2 lines (line_number - 1)) as [target_line Htarget];
    [lia |].
  right. exists patterns, lines, target_line.
  repeat split; try assumption.
  now apply fix_error_reaches_loop.
Qed.

(** What a failed [fix_error] has done to the file. *)
Lemma fix_error_failure_file (ERROR_DATABASE : database) (w : world)
    (file_path error_type : string) (line_number : nat)
    (error_message : string) (w' : world) (evs : list event) :
  fix_error ERROR_DATABASE w file_path error_type line_number error_message
    = (false, w', evs) ->
  readable w' = readable w /\ writable w' = writable w
  /\ exists used,
       upcoming w = used ++ upcoming w'
       /\ Forall (fun o => o <> write_completes) used
       /\ match last_write_raises used with
          | None => text w' = text w
          | Some flushed =>
              exists patterns lines target_line k p lines',
                ERROR_DATABASE !! error_type = Some patterns
                /\ read_lines w = Some lines
                /\ lines !! (line_number - 1) = Some target_line
                /\ patterns !! k = Some p
                /\ detect p target_line = true
                /\ patch_of p
                     (state_before error_type line_number target_line
                        (get_indent target_line) error_message patterns k
                        (lines, w)).1
                     error_type line_number target_line
                     (get_indent target_line) error_message
                   = Some lines'
                /\ text w' = concat (take flushed lines')
          end.
Proof.
  intros Hrun.
  destruct (fix_error_cases ERROR_DATABASE w file_path error_type line_number
              error_message)
    as [(evs0 & Heq & _) | (patterns & lines & target & Hdb & Hread & _ & Ht & Heq)];
    rewrite Heq in Hrun.
  - injection Hrun as <- _. repeat split. exists []. repeat split. constructor.
  - destruct (try_patterns_failure_file _ _ _ _ _ _ _ _ _ _ _ Hrun)
      as (Hr & Hw & used & Hup & Hall & Hlast).
    split; [exact Hr |]. split; [exact Hw |].
    exists used. split; [exact Hup |]. split; [exact Hall |].
    destruct (last_write_raises used) as [flushed|]; [| exact Hlast].
    destruct Hlast as (k & p & lines' & Hk & Hdet & Hpatch & Htext).
    now exists patterns, lines, target, k, p, lines'.
Qed.

(** A failed [fix_error] that has used up no outcome of the file system
    hands back the file as it was: so it is when the next write would have
    completed. *)
Lemma fix_error_false_world (ERROR_DATABASE : database) (w : world)
    (file_path error_type : string) (line_number : nat)
    (error_message : string) (w' : world) (evs : list event) :
  fix_error ERROR_DATABASE w file_path error_type line_number error_message
    = (false, w', evs) ->
  (upcoming w' = upcoming w -> w' = w)
  /\ (next_write w = write_completes -> w' = w).
Proof.
  intros Hrun.
  destruct (fix_error_failure_file _ _ _ _ _ _ _ _ Hrun)
    as (Hr & Hw & used & Hup & Hall & Hlast).
  assert (Hnone : used = [] -> w' = w).
  { intros ->. simpl in Hup, Hlast. now apply world_eq. }
  split.
  - intros Heq. apply Hnone. rewrite <- Heq in Hup.
    apply (app_inv_tail (upcoming w')). now rewrite <- Hup.
  - intros Hnext. apply Hnone. destruct used as [|o used]; [reflexivity |].
    unfold next_write in Hnext. rewrite Hup in Hnext. simpl in Hnext.
    inversion Hall as [|? ? Ho _]; subst. now destruct Ho.
Qed.




(** C5, refuted.  First, the callable of a pattern that matches the line
    raises and the attempt succeeds all the same, through the next pattern
    that matches.  Second, on the registry of the source, an attempt fails
    although the line is in range, the pattern of the class matches and
    nothing raises: the UnboundLocalError handler has declined. *)
Lemma fix_error_failure_causes_differ :
  let db : database := <["KeyError" := raising_then_variable_key]> ∅ in
  let w := file_of_lines [ln "v = cfg[name]"] in
  (exists p f, raising_then_variable_key !! 0 = Some p
               /\ detect p (ln "v = cfg[name]") = true
               /\ fix_ p = fix_fn f
               /\ f (ln "v = cfg[name]") "" "KeyError: 'x'" = None)
  /\ fix_error db w "app.py" "KeyError" 1 "KeyError: 'x'"
     = (true, file_of_lines [ln "v = cfg.get(name, None)"],
        [ERROR_failed_to_apply; FIX_applied "KeyError" 1 2])
  /\ (exists p, UnboundLocalError_patterns = [p]
                /\ detect p (ln "        count += i") = true
                /\ _fix_unbound_local_error already_patched_function 4
                     "        " unbound_message = UL_False)
  /\ (fix_error ERROR_DATABASE_excerpt (file_of_lines already_patched_function)
        "app.py" "UnboundLocalError" 4 unbound_message).1.1 = false.
Proof.
  cbv zeta. split; [| split; [| split]].
  - eexists. eexists. vm_compute. repeat split; reflexivity.
  - vm_compute. reflexivity.
  - eexists. vm_compute. repeat split; reflexivity.
  - vm_compute. reflexivity.
Qed.

(** C5, as the code has it: [fix_error] returns failure exactly when the
    class has no entry in the registry, the file cannot be read, the line
    number is out of range, or the attempt of every pattern of the class
    fails in its turn: its trigger does not match the failing line, or its
    branch yields no patch (the callable raises, an index is out of range,
    or the UnboundLocalError handler declines), or the write of its patch
    raises, at the opening or after it.  A pattern whose attempt fails does
    not end the loop; the loop goes on to the next pattern, with the list
    and the file as the failed attempt left them. *)
Theorem fix_error_fails_iff (ERROR_DATABASE : database) (w : world)
    (file_path error_type : string) (line_number : nat)
    (error_message : string) :
  (fix_error ERROR_DATABASE w file_path error_type line_number
     error_message).1.1 = false
  <->
  (ERROR_DATABASE !! error_type = None
   \/ read_lines w = None
   \/ (exists lines, read_lines w = Some lines
                     /\ (line_number < 1 \/ List.length lines < line_number))
   \/ (exists patterns lines target_line,
         ERROR_DATABASE !! error_type = Some patterns
         /\ read_lines w = Some lines
         /\ lines !! (line_number - 1) = Some target_line
         /\ forall k p,
              patterns !! k = Some p ->
              attempt_fails error_type line_number target_line
                (get_indent target_line) error_message p
                (state_before error_type line_number target_line
                   (get_indent target_line) error_message patterns k
                   (lines, w)).1
                (state_before error_type line_number target_line
                   (get_indent target_line) error_message patterns k
                   (lines, w)).2)).
Proof.
  destruct (fix_error_cases ERROR_DATABASE w file_path error_type line_number
              error_message)
    as [(evs0 & Heq & Hearly)
       | (patterns & lines & target & Hdb & Hread & Hin & Ht & Heq)];
    rewrite Heq.
  - split; [intros _ | reflexivity].
    destruct Hearly as [H | [H | H]]; auto.
  - rewrite try_patterns_fails_iff. split.
    + intros Hall. do 3 right. now exists patterns, lines, target.
    + intros [H | [H | [(lines0 & H & Hout) | H]]]; try congruence.
      * rewrite Hread in H. injection H as <-. lia.
      * destruct H as (patterns0 & lines0 & target0 & H1 & H2 & H3 & Hall).
        rewrite Hdb in H1. injection H1 as <-.
        rewrite Hread in H2. injection H2 as <-.
        rewrite Ht in H3. injection H3 as <-. exact Hall.
Qed.

(** C8, refuted: the first rule whose trigger matches the line is not
    always the one applied.  On the registry of the source, the literal-key
    rule of KeyError (the second of the list) is the first that matches the
    line; the write of its patch raises, the loop goes on, and the
    variable-key rule (the third) is applied.  And when the callable of the
    first rule that matches raises, the second rule is applied. *)
Lemma later_rule_applied_after_failed_attempt :
  let line := ln "v = d['a'] + e[k]" in
  (forall j q, j < 1 -> KeyError_patterns !! j = Some q -> detect q line = false)
  /\ (exists q, KeyError_patterns !! 1 = Some q /\ detect q line = true)
  /\ fix_error ERROR_DATABASE_excerpt (file_with_writes [line] [write_raises 0])
       "app.py" "KeyError" 1 "KeyError: 'a'"
     = (true, file_of_lines [ln "v = d['a'] + e.get(k, None)"],
        [ERROR_failed_to_apply; FIX_applied "KeyError" 1 3])
  /\ (exists q, raising_then_variable_key !! 0 = Some q
                /\ detect q (ln "v = cfg[name]") = true)
  /\ fix_error (<["KeyError" := raising_then_variable_key]> ∅)
       (file_of_lines [ln "v = cfg[name]"]) "app.py" "KeyError" 1
       "KeyError: 'x'"
     = (true, file_of_lines [ln "v = cfg.get(name, None)"],
        [ERROR_failed_to_apply; FIX_applied "KeyError" 1 2]).
Proof.
  cbv zeta. split; [| split; [| split; [| split]]].
  - intros [|j] q Hj Hq; [| lia]. injection Hq as <-. vm_compute. reflexivity.
  - eexists. split; [reflexivity | vm_compute; reflexivity].
  - vm_compute. reflexivity.
  - eexists. split; [reflexivity | vm_compute; reflexivity].
  - vm_compute. reflexivity.
Qed.

(** C8, as the code has it: the patterns of a class are tried in the order
    of the list, and the one applied is the first whose attempt goes
    through: its trigger matches the failing line, its branch yields a
    patch and the write of the patch completes.  A pattern whose trigger
    matches and whose attempt fails is passed over like one whose trigger
    does not match.  The file is then what that write made of it and the
    last line printed names that pattern, whatever the later patterns of
    the list would match.  In particular, when no pattern before it matches
    the line, the first pattern that matches is applied if its attempt goes
    through, and nothing else is printed. *)
Theorem first_applicable_rule_is_applied (ERROR_DATABASE : database)
    (w : world) (file_path error_type : string) (line_number : nat)
    (error_message : string) (patterns : list pattern) (lines : list string)
    (target_line : string) (k : nat) (p : pattern) (w' : world) :
  ERROR_DATABASE !! error_type = Some patterns ->
  read_lines w = Some lines ->
  1 <= line_number ->
  lines !! (line_number - 1) = Some target_line ->
  patterns !! k = Some p ->
  (forall j q, j < k -> patterns !! j = Some q ->
     attempt_fails error_type line_number target_line
       (get_indent target_line) error_message q
       (state_before error_type line_number target_line
          (get_indent target_line) error_message patterns j (lines, w)).1
       (state_before error_type line_number target_line
          (get_indent target_line) error_message patterns j (lines, w)).2) ->
  attempt_completes error_type line_number target_line
    (get_indent target_line) error_message p
    (state_before error_type line_number target_line
       (get_indent target_line) error_message patterns k (lines, w)).1
    (state_before error_type line_number target_line
       (get_indent target_line) error_message patterns k (lines, w)).2 w' ->
  (exists evs,
     fix_error ERROR_DATABASE w file_path error_type line_number error_message
     = (true, w', evs)
     /\ last evs = Some (fix_event p error_type line_number k))
  /\ ((forall j q, j < k -> patterns !! j = Some q ->
         detect q target_line = false) ->
      state_before error_type line_number target_line
        (get_indent target_line) error_message patterns k (lines, w)
      = (lines, w)
      /\ fix_error ERROR_DATABASE w file_path error_type line_number
           error_message
         = (true, w', [fix_event p error_type line_number k])).
Proof.
  intros Hdb Hread Hpos Htarget Hk Hfails Hcomp.
  rewrite (fix_error_reaches_loop _ _ file_path _ _ error_message _ _ _
             Hdb Hread Hpos Htarget).
  split.
  - exact (try_patterns_first_completing error_type line_number target_line
             (get_indent target_line) error_message patterns k 0 lines w p w'
             Hk Hfails Hcomp).
  - intros Hskip.
    assert (Hst : state_before error_type line_number target_line
                    (get_indent target_line) error_message patterns k (lines, w)
                  = (lines, w)).
    { clear Hfails Hcomp Hdb. revert k Hk Hskip.
      induction patterns as [|p0 rest IH]; intros k Hk Hskip;
        [discriminate Hk |].
      destruct k as [|k]; [reflexivity |].
      rewrite state_before_S. unfold after_failed_attempt.
      rewrite (Hskip 0 p0 (Nat.lt_0_succ k) eq_refl).
      apply IH; [exact Hk |].
      intros j q Hj Hq. apply (Hskip (S j) q); [lia | exact Hq]. }
    split; [exact Hst |].
    rewrite Hst in Hcomp.
    exact (proj2 (try_patterns_first_match error_type line_number target_line
                    (get_indent target_line) error_message patterns k 0 lines
                    w p w' Hk Hskip Hcomp)).
Qed.

(** On a chained access both the chained-access pattern and the
    literal-key pattern of KeyError match; the first of the list is
    applied. *)
Lemma first_applicable_rule_is_applied_witness :
  let line := ln "x = d['a']['b']" in
  let w := file_of_lines [line] in
  let w' := file_of_lines
              [ ln "try:";
                ln "    x = d['a']['b']";
                ln "except (IndexError, KeyError, TypeError):";
                ln "    return {}" ] in
  (exists q, KeyError_patterns !! 1 = Some q /\ detect q line = true)
  /\ (exists evs,
        fix_error ERROR_DATABASE_excerpt w "app.py" "KeyError" 1 "KeyError: 'b'"
        = (true, w', evs)
        /\ last evs = Some (fix_event chained_access_pattern "KeyError" 1 0))
  /\ ((forall j q, j < 0 -> KeyError_patterns !! j = Some q ->
         detect q line = false) ->
      state_before "KeyError" 1 line (get_indent line) "KeyError: 'b'"
        KeyError_patterns 0 ([line], w)
      = ([line], w)
      /\ fix_error ERROR_DATABASE_excerpt w "app.py" "KeyError" 1
           "KeyError: 'b'"
         = (true, w', [fix_event chained_access_pattern "KeyError" 1 0])).
Proof.
  intros line w w'. split.
  - eexists. split; [reflexivity | vm_compute; reflexivity].
  - apply (first_applicable_rule_is_applied ERROR_DATABASE_excerpt w "app.py"
             "KeyError" 1 "KeyError: 'b'" KeyError_patterns [line] line 0
             chained_access_pattern w').
    + vm_compute. reflexivity.
    + vm_compute. reflexivity.
    + lia.
    + reflexivity.
    + reflexivity.
    + intros j q Hj. lia.
    + split; [vm_compute; reflexivity |].
      exists [ wrap_in_try_except line "(IndexError, KeyError, TypeError)" 0 ].
      split; vm_compute; reflexivity.
Defined.

Lemma re_search_anything (s : string) : re_search re_anything s = true.
Proof. destruct s; reflexivity. Qed.

(** C7, refuted: the initializer of the variable is already in the
    function, the file is left as it is, and [fix_error] returns failure,
    not success. *)
Lemma present_initializer_reported_as_failure :
  already_initialized already_patched_function "count" 0 1 = true
  /\ fix_error ERROR_DATABASE_excerpt (file_of_lines already_patched_function)
       "app.py" "UnboundLocalError" 4 unbound_message
     = (false, file_of_lines already_patched_function,
        [ WARN_special_not_applied;
          WARN_no_matching "UnboundLocalError" 4;
          LINE "count += i" ]).
Proof. vm_compute. split; reflexivity. Qed.

(** C7, as the code has it: when the initializer of the variable is found
    among the lines that follow the header of the enclosing function (by
    text containment), the handler declines, the buffer and the file are
    left unchanged, and [fix_error] returns failure: the only pattern of
    UnboundLocalError has not been applied. *)
Theorem present_initializer_is_not_applied (ERROR_DATABASE : database)
    (w : world) (file_path : string) (line_number : nat)
    (error_message : string) (lines : list string)
    (target_line var_name : string) (found : option nat) :
  ERROR_DATABASE !! "UnboundLocalError" = Some UnboundLocalError_patterns ->
  read_lines w = Some lines ->
  1 <= line_number ->
  lines !! (line_number - 1) = Some target_line ->
  search_local_variable error_message = Some var_name ->
  find_def_from lines line_number = Some found ->
  already_initialized lines var_name (default 0 found)
    (insertion_index lines (default 0 found)) = true ->
  _fix_unbound_local_error lines line_number (get_indent target_line)
    error_message = UL_False
  /\ fix_error ERROR_DATABASE w file_path "UnboundLocalError" line_number
       error_message
     = (false, w,
        [ WARN_special_not_applied;
          WARN_no_matching "UnboundLocalError" line_number;
          LINE (strip target_line) ]).
Proof.
  intros Hdb Hread Hpos Htarget Hvar Hdef Hinit.
  assert (Hdecl : _fix_unbound_local_error lines line_number
                    (get_indent target_line) error_message = UL_False).
  { unfold _fix_unbound_local_error. now rewrite Hvar, Hdef, Hinit. }
  split; [exact Hdecl |].
  rewrite (fix_error_reaches_loop _ _ file_path _ _ error_message _ _ _
             Hdb Hread Hpos Htarget).
  unfold UnboundLocalError_patterns, unbound_local_pattern.
  cbn [try_patterns detect fix_].
  rewrite re_search_anything, Hdecl. reflexivity.
Qed.

Lemma present_initializer_is_not_applied_witness :
  _fix_unbound_local_error already_patched_function 4 "        "
    unbound_message = UL_False
  /\ fix_error ERROR_DATABASE_excerpt (file_of_lines already_patched_function)
       "app.py" "UnboundLocalError" 4 unbound_message
     = (false, file_of_lines already_patched_function,
        [ WARN_special_not_applied;
          WARN_no_matching "UnboundLocalError" 4;
          LINE (strip (ln "        count += i")) ]).
Proof.
  apply (present_initializer_is_not_applied ERROR_DATABASE_excerpt
           (file_of_lines already_patched_function) "app.py" 4 unbound_message
           already_patched_function (ln "        count += i") "count" (Some 0)).
  - vm_compute. reflexivity.
  - vm_compute. reflexivity.
  - lia.
  - vm_compute. reflexivity.
  - vm_compute. reflexivity.
  - vm_compute. reflexivity.
  - vm_compute. reflexivity.
Defined.

(** ** The diagnostic parser *)

Lemma add_frame_appends (all_frames : list frame) (line : string) :
  add_frame all_frames line = all_frames ++ user_frames_of_line line.
Proof.
  unfold user_frames_of_line, add_frame.
  destruct (frame_of_line line) as [[file_path line_num]|];
    [| now rewrite app_nil_r].
  destruct (is_user_file file_path); [reflexivity | now rewrite app_nil_r].
Qed.

Lemma fold_add_frame (lines : list string) :
  forall all_frames,
    fold_left add_frame lines all_frames
    = all_frames ++ flat_map user_frames_of_line lines.
Proof.
  induction lines as [|line lines IH]; intros all_frames; simpl.
  - now rewrite app_nil_r.
  - rewrite IH, add_frame_appends. now rewrite <- app_assoc.
Qed.

(** The frames are collected in the order of the lines of the text. *)
Lemma collect_frames_in_order (lines : list string) :
  collect_frames lines = flat_map user_frames_of_line lines.
Proof. unfold collect_frames. now rewrite fold_add_frame. Qed.

Lemma leftmost_found {A : Type} (m : string -> option A) (s : string)
    (before : string) (a : A) :
  leftmost m s = Some (before, a) -> exists rest, m rest = Some a.
Proof.
  revert before. induction s as [|c s IH]; intros before; simpl.
  - destruct (m "") eqn:Hm; [| intros [=]].
    intros [= _ <-]. exists "". exact Hm.
  - destruct (m (String c s)) eqn:Hm.
    + intros [= _ <-]. eexists. exact Hm.
    + destruct (leftmost m s) as [[pre a']|]; [| intros [=]].
      intros [= _ <-]. now apply (IH pre).
Qed.

Lemma frame_at_path_not_empty (s : string) (file_path : string) (n : nat) :
  frame_at s = Some (file_path, n) -> file_path <> "".
Proof.
  unfold frame_at.
  destruct (strip_prefix ("File " +:+ dq) s) as [rest|]; [| intros [=]].
  cbn [mbind option_bind].
  destruct (span_while (fun c => negb (Ascii.eqb c DQ)) rest) as [fp rest2].
  destruct (String.eqb fp "") eqn:Hfp; [intros [=] |].
  destruct (strip_prefix (dq +:+ ", line ") rest2) as [rest3|]; [| intros [=]].
  cbn [mbind option_bind].
  destruct (span_while is_digit rest3) as [digits tl].
  destruct (String.eqb digits ""); [intros [=] |].
  intros [= <- _]. intros ->. discriminate Hfp.
Qed.

(** A collected frame names a file that is not one of the interpreter's,
    and its path is not empty. *)
Lemma collected_frame_is_user_frame (lines : list string) (fr : frame) :
  fr ∈ collect_frames lines -> is_user_file fr.1 = true /\ fr.1 <> "".
Proof.
  rewrite collect_frames_in_order, list_elem_of_In, in_flat_map.
  intros (line & _ & Hin). unfold user_frames_of_line, add_frame in Hin.
  destruct (frame_of_line line) as [[file_path line_num]|] eqn:Hline;
    [| destruct Hin].
  destruct (is_user_file file_path) eqn:Huser; [| destruct Hin].
  destruct Hin as [<- | []]. split; [exact Huser |].
  unfold frame_of_line in Hline.
  destruct (contains ("File " +:+ dq) line && contains ", line " line);
    [| discriminate Hline].
  destruct (leftmost frame_at line) as [[before fr]|] eqn:Hleft;
    [| discriminate Hline].
  simpl in Hline. injection Hline as ->.
  destruct (leftmost_found _ _ _ _ Hleft) as [rest Hrest].
  eapply frame_at_path_not_empty. exact Hrest.
Qed.

Section Selection.

Variable abspath : string -> string.

(** With a target and a frame of it among the collected ones, the last
    frame of the target is selected. *)
Lemma select_frame_target (all_frames : list frame) (target : string) :
  target <> "" ->
  Forall (fun fr => fr.1 <> "") all_frames ->
  Exists (fun fr => abspath fr.1 = abspath target) all_frames ->
  exists before f n after,
    all_frames = before ++ (f, n) :: after
    /\ abspath f = abspath target
    /\ Forall (fun fr => abspath fr.1 <> abspath target) after
    /\ select_frame abspath all_frames (Some target) = (Some f, Some n).
Proof.
  intros Htarget Hpaths Hex.
  destruct (last (filter (fun fr : frame => abspath fr.1 = abspath target)
                    all_frames)) as [[f n]|] eqn:Hlast.
  - destruct (last_filter_Some _ _ _ Hlast) as (before & after & Hsplit & Hafter).
    assert (Hin : (f, n) ∈ filter (fun fr : frame => abspath fr.1 = abspath target)
                    all_frames).
    { apply last_Some in Hlast as [l' ->]. apply elem_of_app. right.
      now apply list_elem_of_singleton. }
    apply list_elem_of_filter in Hin as [Habs Hmem].
    exists before, f, n, after. repeat split; try assumption.
    unfold select_frame.
    destruct all_frames as [|fr0 frs]; [now apply elem_of_nil in Hmem |].
    assert (Ht : truthy_str target = true).
    { unfold truthy_str. apply negb_true_iff. now apply String.eqb_neq. }
    rewrite Ht, Hlast.
    assert (Hf : truthy_opt_str (Some f) = true).
    { rewrite Forall_forall in Hpaths. specialize (Hpaths (f, n) Hmem).
      simpl. unfold truthy_str. apply negb_true_iff.
      now apply String.eqb_neq. }
    now rewrite Hf.
  - exfalso. apply last_None in Hlast.
    apply Exists_exists in Hex as (fr & Hmem & Habs).
    exact (filter_nil_not_elem_of _ _ fr Hlast Habs Hmem).
Qed.

(** Without a target, or with none of its frames collected, the last
    collected frame is selected. *)
Lemma select_frame_fallback (all_frames : list frame)
    (target_script : option string) :
  (target_script = None
   \/ target_script = Some ""
   \/ exists target, target_script = Some target
        /\ Forall (fun fr => abspath fr.1 <> abspath target) all_frames) ->
  select_frame abspath all_frames target_script
  = match last all_frames with
    | Some (f, n) => (Some f, Some n)
    | None => (None, None)
    end.
Proof.
  intros Hcase. unfold select_frame.
  assert (Hnone :
    match target_script, all_frames with
    | Some target, _ :: _ =>
        if truthy_str target then
          match last (filter (fun fr : frame => abspath fr.1 = abspath target)
                        all_frames) with
          | Some (f, ln) => (Some f, Some ln)
          | None => (None, None)
          end
        else (None, None)
    | _, _ => (None, None)
    end = (@None string, @None nat)).
  { destruct Hcase as [-> | [-> | (target & -> & Hall)]].
    - reflexivity.
    - now destruct all_frames.
    - destruct all_frames as [|fr0 frs]; [reflexivity |].
      destruct (truthy_str target); [| reflexivity].
      destruct (last (filter (fun fr : frame => abspath fr.1 = abspath target)
                        (fr0 :: frs))) as [[f n]|] eqn:Hlast; [| reflexivity].
      exfalso. apply last_Some in Hlast as [l' Hl'].
      assert (Hin : (f, n) ∈ filter
                      (fun fr : frame => abspath fr.1 = abspath target)
                      (fr0 :: frs)).
      { rewrite Hl'. apply elem_of_app. right.
        now apply list_elem_of_singleton. }
      apply list_elem_of_filter in Hin as [Habs Hmem].
      rewrite Forall_forall in Hall. now apply (Hall (f, n) Hmem). }
  rewrite Hnone. simpl.
  destruct (last all_frames) as [[f n]|]; reflexivity.
Qed.

End Selection.

(** C9: [parse_error] collects the frames of the text in the order of its
    lines, outermost first, and leaves out those of the interpreter and of
    its library.  With a target file of which a frame has been collected,
    it selects the last frame of that file; with no target, or with no frame
    of the target, it selects the last collected frame, if there is one. *)
Theorem parse_error_selects_innermost_frame (ERROR_DATABASE : database)
    (abspath : string -> string) (stderr : string)
    (target_script : option string) (error_type : option string)
    (error_file : option string) (error_line : option nat) (message : string) :
  parse_error ERROR_DATABASE abspath stderr target_script
    = (error_type, error_file, error_line, message) ->
  let lines := split (strip stderr) LF in
  let frames := collect_frames lines in
  frames = flat_map user_frames_of_line lines
  /\ Forall (fun fr : frame => is_user_file fr.1 = true) frames
  /\ (forall target,
        target_script = Some target -> target <> "" ->
        Exists (fun fr : frame => abspath fr.1 = abspath target) frames ->
        exists before f n after,
          frames = before ++ (f, n) :: after
          /\ abspath f = abspath target
          /\ Forall (fun fr : frame => abspath fr.1 <> abspath target) after
          /\ error_file = Some f /\ error_line = Some n)
  /\ ((target_script = None
       \/ target_script = Some ""
       \/ exists target, target_script = Some target
            /\ Forall (fun fr : frame => abspath fr.1 <> abspath target) frames) ->
      match last frames with
      | Some (f, n) => error_file = Some f /\ error_line = Some n
      | None => error_file = None /\ error_line = None
      end).
Proof.
  intros Hparse lines frames. unfold parse_error in Hparse.
  fold lines in Hparse. fold frames in Hparse.
  destruct (select_frame abspath frames target_script) as [ef el] eqn:Hsel.
  injection Hparse as _ <- <- _.
  split; [apply collect_frames_in_order |].
  split; [apply Forall_forall; intros fr Hfr;
          now apply (collected_frame_is_user_frame lines) |].
  split.
  - intros target -> Htarget Hex.
    destruct (select_frame_target abspath frames target Htarget) as
      (before & f & n & after & Hsplit & Habs & Hafter & Hsel'); [| exact Hex |].
    + apply Forall_forall. intros fr Hfr.
      now apply (collected_frame_is_user_frame lines).
    + rewrite Hsel in Hsel'. injection Hsel' as -> ->.
      exists before, f, n, after. auto.
  - intros Hcase.
    rewrite (select_frame_fallback abspath frames target_script Hcase) in Hsel.
    destruct (last frames) as [[f n]|]; injection Hsel as <- <-; auto.
Qed.

Lemma parse_error_selects_innermost_frame_witness :
  let frames := collect_frames (split (strip sample_traceback) LF) in
  frames = [("app.py", 40); ("app.py", 12); ("helpers.py", 7)]
  /\ parse_error ERROR_DATABASE_excerpt (fun f => f) sample_traceback
       (Some "app.py")
     = (Some "JSONDecodeError", Some "app.py", Some 12, sample_traceback)
  /\ (exists before f n after,
        frames = before ++ (f, n) :: after
        /\ f = "app.py"
        /\ Forall (fun fr : frame => fr.1 <> "app.py") after
        /\ Some "app.py" = Some f /\ Some 12 = Some n).
Proof.
  intros frames.
  split; [vm_compute; reflexivity |].
  split; [vm_compute; reflexivity |].
  assert (Hparse : parse_error ERROR_DATABASE_excerpt (fun f => f)
                     sample_traceback (Some "app.py")
                   = (Some "JSONDecodeError", Some "app.py", Some 12,
                      sample_traceback))
    by (vm_compute; reflexivity).
  destruct (parse_error_selects_innermost_frame _ _ _ _ _ _ _ _ Hparse)
    as (_ & _ & Htarget & _).
  apply (Htarget "app.py"); [reflexivity | discriminate |].
  apply Exists_exists. exists ("app.py", 12). split; [| reflexivity].
  vm_compute. apply list_elem_of_further, list_elem_of_here.
Defined.

(** ** The repair loop *)

Section LoopProperties.

Variable ERROR_DATABASE : database.
Variable abspath : string -> string.
Variable run_and_capture_error : nat -> world -> option string.
Variable script_path : string.
Variable max_iterations : nat.

Local Abbreviation body :=
  (loop_body ERROR_DATABASE abspath run_and_capture_error script_path
     max_iterations).
Local Abbreviation step_ :=
  (step ERROR_DATABASE abspath run_and_capture_error script_path
     max_iterations).
Local Abbreviation run_ :=
  (run_session ERROR_DATABASE abspath run_and_capture_error script_path
     max_iterations).

Lemma after_loop_counters (s : session) :
  iteration (after_loop max_iterations s) = iteration s
  /\ fixed_errors (after_loop max_iterations s) = fixed_errors s
  /\ disk (after_loop max_iterations s) = disk s.
Proof.
  unfold after_loop. destruct (max_iterations <=? iteration s); auto.
Qed.

Lemma break_result (s : session) (o : outcome) (s1 : session)
    (evs : list event) :
  iteration s1 = iteration s + 1 ->
  fixed_errors s1 = fixed_errors s ->
  body_result s (break max_iterations o s1 evs).
Proof.
  intros Hit Hfix. unfold break.
  destruct (after_loop_counters (print s1 evs)) as (H1 & H2 & _).
  constructor; [rewrite H1 | rewrite H2]; assumption.
Qed.

(** A branch of the body that ends in [break]. *)
Ltac breaks := now apply break_result.

Lemma loop_body_result (s : session) : body_result s (body s).
Proof.
  unfold loop_body.
  destruct (negb (truthy_str _)); [breaks |].
  destruct (parse_error _ _ _ _) as [[[et ef] el] full_error].
  destruct et as [et|]; [| breaks].
  destruct (truthy_str et); [| breaks].
  destruct ef as [ef|]; [| breaks].
  destruct el as [el|]; [| breaks].
  destruct (truthy_str ef && negb (el =? 0)); [| breaks].
  destruct (negb (String.eqb (abspath ef) (abspath script_path)));
    [breaks |].
  destruct (bool_decide _) eqn:Hmem; [breaks |].
  destruct (fix_error _ _ _ _ _ _) as [[ok w'] evs].
  destruct ok; [| breaks].
  apply (body_continue s _ (et, el)); try reflexivity.
  apply bool_decide_eq_false in Hmem. exact Hmem.
Qed.

(** After [n] steps the loop has made [n] turns and is within its
    bound, or the session is over and has made no more turns than the
    bound allows. *)
Lemma run_session_counts (w : world) (n : nat) :
  match run_ n w with
  | Running s => iteration s = n /\ n <= max_iterations
  | Finished _ s => iteration s <= max_iterations
  end.
Proof.
  induction n as [|n IH]; [simpl; lia |].
  unfold run_session in *. rewrite Nat.iter_succ.
  destruct (Nat.iter n _ _) as [s | o s]; [| exact IH].
  destruct IH as [Hit Hle]. unfold step.
  destruct (iteration s <? max_iterations) eqn:Hlt.
  - apply Nat.ltb_lt in Hlt.
    destruct (loop_body_result s) as [o s' Hs' _ | s' sg Hs' _ _]; lia.
  - destruct (after_loop_counters s) as (H1 & _). lia.
Qed.

(** The recorded descriptors never repeat, and each of them is the
    descriptor of a signature. *)
Lemma run_session_signatures (w : world) (n : nat) :
  exists sigs : list signature,
    fixed_errors (session_of (run_ n w)) = map descriptor_of sigs
    /\ NoDup (fixed_errors (session_of (run_ n w))).
Proof.
  induction n as [|n IH]; [exists []; split; [reflexivity | constructor] |].
  unfold run_session in *. rewrite Nat.iter_succ.
  destruct (Nat.iter n _ _) as [s | o s]; [| exact IH].
  destruct IH as (sigs & Hsigs & Hnodup). simpl in Hsigs, Hnodup.
  unfold step. destruct (iteration s <? max_iterations).
  - destruct (loop_body_result s) as [o s' _ Hfix | s' sg _ Hfix Hnew]; simpl.
    + exists sigs. now rewrite Hfix.
    + exists (sigs ++ [sg]). rewrite Hfix, map_app, Hsigs. split; [reflexivity |].
      rewrite <- Hsigs. apply NoDup_app. repeat split.
      * exact Hnodup.
      * intros x Hx Hx'. apply list_elem_of_singleton in Hx'. now subst.
      * apply NoDup_singleton.
  - simpl. destruct (after_loop_counters s) as (_ & H2 & _).
    exists sigs. now rewrite H2.
Qed.

(** A diagnostic whose descriptor is recorded ends the session as
    Cycled, with the file and the record as they were; nothing of
    [fix_error] is printed. *)
Lemma recorded_descriptor_ends_cycled (s : session) (stderr : string)
    (error_type error_file : string) (error_line : nat) :
  iteration s < max_iterations ->
  run_and_capture_error (iteration s + 1) (disk s) = Some stderr ->
  stderr <> "" ->
  parse_error ERROR_DATABASE abspath stderr (Some script_path)
    = (Some error_type, Some error_file, Some error_line, stderr) ->
  error_type <> "" -> error_file <> "" -> error_line <> 0 ->
  abspath error_file = abspath script_path ->
  error_descriptor error_type error_line ∈ fixed_errors s ->
  step_ (Running s)
  = Finished Cycled
      (after_loop max_iterations
         {| iteration := iteration s + 1;
            fixed_errors := fixed_errors s;
            disk := disk s;
            printed := printed s
                       ++ [ITERATION (iteration s + 1)]
                       ++ [DETECTED (error_descriptor error_type error_line)]
                       ++ [ERROR_loop_detected stderr] |}).
Proof.
  intros Hlt Hrun Hne Hparse Het Hef Hel Habs Hmem.
  unfold step. apply Nat.ltb_lt in Hlt. rewrite Hlt.
  unfold loop_body. cbn [iteration disk fixed_errors printed].
  rewrite Hrun. cbn [default from_option]. unfold id.
  assert (Ht : forall x, x <> "" -> truthy_str x = true).
  { intros x Hx. unfold truthy_str. apply negb_true_iff.
    now apply String.eqb_neq. }
  rewrite (Ht _ Hne). cbn [negb]. rewrite Hparse.
  rewrite (Ht _ Het), (Ht _ Hef).
  replace (error_line =? 0) with false
    by (symmetry; now apply Nat.eqb_neq).
  cbn [negb andb]. rewrite Habs, String.eqb_refl. cbn [negb].
  unfold print at 1. cbn [iteration disk fixed_errors printed].
  rewrite bool_decide_eq_true_2 by exact Hmem.
  unfold break, print. cbn [iteration disk fixed_errors printed].
  now rewrite <- !app_assoc.
Qed.

End LoopProperties.

(** C1: a repair session is over after at most as many turns of the loop
    as the bound allows, whatever the target program does and whatever the
    registry holds: one step past the bound the session has reached one of
    its outcomes, having run the target no more often than the bound.  The
    bound of [main] is 100. *)
Theorem repair_session_terminates (ERROR_DATABASE : database)
    (abspath : string -> string)
    (run_and_capture_error : nat -> world -> option string)
    (script_path : string) (max_iterations : nat) (w : world) :
  (exists o s,
     run_session ERROR_DATABASE abspath run_and_capture_error script_path
       max_iterations (S max_iterations) w = Finished o s
     /\ iteration s <= max_iterations)
  /\ (exists o s,
        main ERROR_DATABASE abspath run_and_capture_error script_path w
          = Finished o s
        /\ iteration s <= 100)
  /\ default_max_iterations = 100.
Proof.
  assert (Hgen : forall bound,
    exists o s,
      run_session ERROR_DATABASE abspath run_and_capture_error script_path
        bound (S bound) w = Finished o s
      /\ iteration s <= bound).
  { intros bound.
    pose proof (run_session_counts ERROR_DATABASE abspath
                  run_and_capture_error script_path bound w (S bound)) as H.
    destruct (run_session _ _ _ _ _ _ _) as [s | o s].
    - lia.
    - now exists o, s. }
  split; [apply Hgen |]. split; [| reflexivity].
  apply (Hgen default_max_iterations).
Qed.

(** C2: in every state that a session reaches, the recorded descriptors
    are those of pairwise distinct signatures (class, line); and when the
    run of the target yields a diagnostic whose descriptor is recorded, the
    session ends as Cycled in that turn, with the file and the record
    untouched and without a call of [fix_error]. *)
Theorem recorded_signatures_distinct_and_cycle_detected
    (ERROR_DATABASE : database) (abspath : string -> string)
    (run_and_capture_error : nat -> world -> option string)
    (script_path : string) (max_iterations : nat) (w : world) (n : nat) :
  let st :=
    run_session ERROR_DATABASE abspath run_and_capture_error script_path
      max_iterations n w in
  (exists sigs : list signature,
     fixed_errors (session_of st) = map descriptor_of sigs
     /\ NoDup sigs
     /\ NoDup (fixed_errors (session_of st)))
  /\ (forall s stderr error_type error_file error_line,
        st = Running s ->
        iteration s < max_iterations ->
        run_and_capture_error (iteration s + 1) (disk s) = Some stderr ->
        stderr <> "" ->
        parse_error ERROR_DATABASE abspath stderr (Some script_path)
          = (Some error_type, Some error_file, Some error_line, stderr) ->
        error_type <> "" -> error_file <> "" -> error_line <> 0 ->
        abspath error_file = abspath script_path ->
        error_descriptor error_type error_line ∈ fixed_errors s ->
        step ERROR_DATABASE abspath run_and_capture_error script_path
          max_iterations st
        = Finished Cycled
            (after_loop max_iterations
               {| iteration := iteration s + 1;
                  fixed_errors := fixed_errors s;
                  disk := disk s;
                  printed := printed s
                             ++ [ITERATION (iteration s + 1)]
                             ++ [DETECTED (error_descriptor error_type error_line)]
                             ++ [ERROR_loop_detected stderr] |})).
Proof.
  intros st. split.
  - destruct (run_session_signatures ERROR_DATABASE abspath
                run_and_capture_error script_path max_iterations w n)
      as (sigs & Hsigs & Hnodup).
    exists sigs. fold st in Hsigs, Hnodup. repeat split; try assumption.
    rewrite Hsigs in Hnodup. now apply NoDup_fmap_1 in Hnodup.
  - intros s stderr et ef el -> Hlt Hrun Hne Hparse Het Hef Hel Habs Hmem.
    now apply (recorded_descriptor_ends_cycled _ _ _ _ _ _ _ _ ef).
Qed.

(** The first turn wraps the chained access; the target fails again with
    the same signature, and the second turn ends the session as Cycled
    with the file as the first turn left it. *)
Lemma recorded_signatures_distinct_and_cycle_detected_witness :
  let w := file_of_lines [ln "x = d['a']['b']"] in
  let st1 :=
    run_session ERROR_DATABASE_excerpt (fun f => f) stubborn_run "app.py"
      default_max_iterations 1 w in
  exists s',
    step ERROR_DATABASE_excerpt (fun f => f) stubborn_run "app.py"
      default_max_iterations st1 = Finished Cycled s'
    /\ fixed_errors s' = ["KeyError at line 1"]
    /\ disk s' = disk (session_of st1)
    /\ iteration s' = 2.
Proof.
  intros w st1.
  pose proof (recorded_signatures_distinct_and_cycle_detected
                ERROR_DATABASE_excerpt (fun f => f) stubborn_run "app.py"
                default_max_iterations w 1) as [_ Hcycle].
  eexists. split.
  - eapply (Hcycle _ stubborn_traceback "KeyError" "app.py" 1).
    + vm_compute. reflexivity.
    + vm_compute. lia.
    + reflexivity.
    + discriminate.
    + vm_compute. reflexivity.
    + discriminate.
    + discriminate.
    + discriminate.
    + reflexivity.
    + vm_compute. apply list_elem_of_here.
  - vm_compute. repeat split; reflexivity.
Defined.

(** * Further properties of the code *)

(** ** Reading and writing the lines of a file *)

Lemma rev_onto_app (s acc : string) : rev_onto s acc = reverse s +:+ acc.
Proof.
  revert acc. induction s as [|c s IH]; intros acc; [reflexivity |].
  unfold reverse. simpl. rewrite (IH (String c acc)), (IH (String c "")).
  now rewrite append_assoc.
Qed.

Lemma reverse_cons (c : ascii) (s : string) :
  reverse (String c s) = reverse s +:+ String c "".
Proof. unfold reverse at 1. simpl. apply rev_onto_app. Qed.

Lemma reverse_app (a b : string) : reverse (a +:+ b) = reverse b +:+ reverse a.
Proof.
  induction a as [|c a IH].
  - change ("" +:+ b) with b. now rewrite append_nil_r.
  - rewrite append_cons, !reverse_cons, IH. apply append_assoc.
Qed.

Lemma reverse_involutive (s : string) : reverse (reverse s) = s.
Proof.
  induction s as [|c s IH]; [reflexivity |].
  rewrite reverse_cons, reverse_app, IH. reflexivity.
Qed.

Lemma has_char_app (c : ascii) (a b : string) :
  has_char c (a +:+ b) = has_char c a || has_char c b.
Proof.
  induction a as [|x a IH]; [reflexivity |].
  rewrite append_cons. simpl. rewrite IH. apply orb_assoc.
Qed.

Lemma has_char_cons_false (c x : ascii) (s : string) :
  has_char c (String x s) = false ->
  Ascii.eqb x c = false /\ has_char c s = false.
Proof.
  simpl. intros H. apply orb_false_iff in H as [H1 H2].
  split; [| exact H2]. now rewrite Ascii.eqb_sym.
Qed.

Lemma universal_newlines_without_cr (s : string) :
  has_char CR s = false -> universal_newlines s = s.
Proof.
  induction s as [|c s IH]; [reflexivity |].
  intros H. apply has_char_cons_false in H as [Hc Hs].
  simpl. rewrite Hc. f_equal. now apply IH.
Qed.

Lemma lines_onto_line (body rest acc : string) :
  has_char LF body = false ->
  lines_onto (body +:+ String LF rest) acc
  = (reverse acc +:+ body +:+ NL) :: lines_onto rest "".
Proof.
  revert acc. induction body as [|c body IH]; intros acc Hbody.
  - change ("" +:+ String LF rest) with (String LF rest).
    change ("" +:+ NL) with NL.
    cbn [lines_onto]. rewrite Ascii.eqb_refl. now rewrite reverse_cons.
  - apply has_char_cons_false in Hbody as [Hc Hbody].
    rewrite append_cons. cbn [lines_onto]. rewrite Hc.
    rewrite (IH (String c acc) Hbody), reverse_cons.
    now rewrite append_assoc.
Qed.

Lemma concat_cons (l : string) (ls : list string) :
  concat (l :: ls) = l +:+ concat ls.
Proof. reflexivity. Qed.

Lemma concat_app (a b : list string) :
  concat (a ++ b) = concat a +:+ concat b.
Proof.
  induction a as [|x a IH]; [reflexivity |].
  simpl app. rewrite !concat_cons, IH. now rewrite append_assoc.
Qed.

Lemma terminated_lines_without_cr (lines : list string) :
  Forall terminated_line lines -> has_char CR (concat lines) = false.
Proof.
  induction 1 as [|l ls (body & -> & _ & Hcr) _ IH]; [reflexivity |].
  rewrite concat_cons, !has_char_app, Hcr, IH. reflexivity.
Qed.

Lemma readlines_concat (lines : list string) :
  Forall terminated_line lines -> readlines (concat lines) = lines.
Proof.
  intros Hall. unfold readlines.
  rewrite (universal_newlines_without_cr _ (terminated_lines_without_cr _ Hall)).
  induction Hall as [|l ls (body & -> & Hlf & _) _ IH]; [reflexivity |].
  rewrite concat_cons, append_assoc.
  change (NL +:+ concat ls) with (String LF (concat ls)).
  rewrite (lines_onto_line body (concat ls) "" Hlf), IH. reflexivity.
Qed.

Lemma concat_lines_onto (s acc : string) :
  concat (lines_onto s acc) = reverse acc +:+ s.
Proof.
  revert acc. induction s as [|c s IH]; intros acc.
  - simpl. destruct acc as [|a acc]; [reflexivity |].
    rewrite concat_cons. reflexivity.
  - simpl. destruct (Ascii.eqb c LF) eqn:Hc.
    + apply Ascii.eqb_eq in Hc as ->.
      rewrite concat_cons, IH, reverse_cons.
      change (reverse "" +:+ s) with s. now rewrite append_assoc.
    + rewrite IH, reverse_cons. now rewrite append_assoc.
Qed.

(** X1: a buffer of terminated lines that [fix_error] writes is the buffer
    that the next reading of the file returns. *)
Theorem written_buffer_is_read_back (w w' : world) (lines : list string) :
  Forall terminated_line lines ->
  readable w = true ->
  write_back w lines = Completed w' ->
  read_lines w' = Some lines /\ text w' = concat lines.
Proof.
  intros Hall Hr Hwrite.
  apply write_back_completed in Hwrite as (_ & _ & ->).
  unfold read_lines, written. cbn [readable text]. rewrite Hr.
  now rewrite (readlines_concat _ Hall).
Qed.

Lemma written_buffer_is_read_back_witness :
  read_lines (written (file_of_lines [ln "old"]) nested_with_block_patched)
    = Some nested_with_block_patched
  /\ text (written (file_of_lines [ln "old"]) nested_with_block_patched)
     = concat nested_with_block_patched.
Proof.
  apply (written_buffer_is_read_back (file_of_lines [ln "old"])).
  - unfold nested_with_block_patched.
    repeat (apply Forall_cons; split;
            [eexists; split; [reflexivity | split; vm_compute; reflexivity] |]).
    apply Forall_nil. exact I.
  - reflexivity.
  - vm_compute. reflexivity.
Defined.

(** X2: reading a file and writing the lines back as they were read leaves
    the text of the file, up to the translation of CR LF and CR into LF
    that the reading makes; a text without CR is left exactly as it was. *)
Theorem read_then_write_normalises_newlines (w w' : world) (lines : list string) :
  read_lines w = Some lines ->
  write_back w lines = Completed w' ->
  text w' = universal_newlines (text w)
  /\ (has_char CR (text w) = false -> text w' = text w).
Proof.
  unfold read_lines. intros Hread Hwrite.
  destruct (readable w); [| discriminate Hread]. injection Hread as <-.
  apply write_back_completed in Hwrite as (_ & _ & ->).
  unfold written. cbn [text]. unfold readlines.
  rewrite concat_lines_onto. change (reverse "" +:+ ?x) with x.
  split; [reflexivity |]. apply universal_newlines_without_cr.
Qed.

Lemma read_then_write_normalises_newlines_witness :
  let w := {| text := "a = 1" +:+ String CR NL +:+ "b = 2";
              readable := true; writable := true; upcoming := [] |} in
  text (written w [ln "a = 1"; "b = 2"]) = "a = 1" +:+ NL +:+ "b = 2"
  /\ (has_char CR (text w) = false -> text (written w [ln "a = 1"; "b = 2"]) = text w).
Proof.
  intros w.
  pose proof (read_then_write_normalises_newlines w
                (written w [ln "a = 1"; "b = 2"]) [ln "a = 1"; "b = 2"]) as H.
  apply H; vm_compute; reflexivity.
Defined.

(** ** The indentation helpers *)

Lemma len_app (a b : string) : len (a +:+ b) = len a + len b.
Proof.
  induction a as [|c a IH]; [reflexivity |].
  rewrite append_cons. unfold len in *. simpl. now rewrite IH.
Qed.

Lemma len_spaces (n : nat) : len (spaces n) = n.
Proof. induction n as [|n IH]; [reflexivity |]. unfold len in *. simpl. now rewrite IH. Qed.

Lemma lstrip_split (line : string) :
  exists ws,
    line = ws +:+ lstrip line
    /\ all_chars is_space ws = true
    /\ match lstrip line with
       | EmptyString => True
       | String c _ => is_space c = false
       end.
Proof.
  induction line as [|c line (ws & Hsplit & Hws & Hhead)].
  - exists "". repeat split.
  - simpl. destruct (is_space c) eqn:Hc.
    + exists (String c ws). rewrite append_cons, <- Hsplit.
      repeat split; [simpl; now rewrite Hc, Hws | exact Hhead].
    + exists "". repeat split. exact Hc.
Qed.

Lemma lstrip_fixed (s : string) :
  match s with
  | EmptyString => True
  | String c _ => is_space c = false
  end ->
  lstrip s = s.
Proof. destruct s as [|c s]; [reflexivity |]. simpl. now intros ->. Qed.

Lemma lstrip_spaces (n : nat) (s : string) : lstrip (spaces n +:+ s) = lstrip s.
Proof.
  induction n as [|n IH]; [reflexivity |].
  simpl spaces. rewrite append_cons. simpl. exact IH.
Qed.

(** X3: the indentation that [get_indent] returns has one space for each
    character of leading whitespace of the line, tabs included; the line is
    that whitespace followed by its left-stripped text. *)
Theorem get_indent_counts_leading_whitespace (line : string) :
  exists ws,
    line = ws +:+ lstrip line
    /\ all_chars is_space ws = true
    /\ get_indent line = spaces (len ws)
    /\ len (get_indent line) = len ws
    /\ indent_width line <= len line.
Proof.
  destruct (lstrip_split line) as (ws & Hsplit & Hws & _).
  exists ws. split; [exact Hsplit |]. split; [exact Hws |].
  assert (Hlen : len line = len ws + len (lstrip line)).
  { rewrite <- len_app. now rewrite <- Hsplit. }
  assert (Hw : indent_width line = len ws)
    by (unfold indent_width; lia).
  unfold get_indent. rewrite Hw, len_spaces.
  repeat split. lia.
Qed.

Lemma has_char_spaces (c : ascii) (n : nat) :
  Ascii.eqb c " " = false -> has_char c (spaces n) = false.
Proof.
  intros Hc. induction n as [|n IH]; [reflexivity |].
  simpl. now rewrite Hc, IH.
Qed.

Lemma one_line_app (a b : string) : one_line a -> one_line b -> one_line (a +:+ b).
Proof.
  unfold one_line. intros [Ha1 Ha2] [Hb1 Hb2].
  now rewrite !has_char_app, Ha1, Ha2, Hb1, Hb2.
Qed.

Lemma one_line_spaces (n : nat) : one_line (spaces n).
Proof. split; now apply has_char_spaces. Qed.

Lemma terminated_of_one_line (body : string) :
  one_line body -> terminated_line (body +:+ NL).
Proof. intros [H1 H2]. now exists body. Qed.

(** X4: the text that [wrap_in_try_except] returns is read as four lines:
    [try:] at the given indentation, the stripped line four columns
    deeper, the [except] clause at the given indentation and [return {}]
    four columns deeper. *)
Theorem wrap_in_try_except_is_four_lines (line exception_type : string)
    (indent_level : nat) :
  one_line (strip line) ->
  one_line exception_type ->
  readlines (wrap_in_try_except line exception_type indent_level)
  = [ spaces indent_level +:+ "try:" +:+ NL;
      spaces (indent_level + 4) +:+ strip line +:+ NL;
      spaces indent_level +:+ "except " +:+ exception_type +:+ ":" +:+ NL;
      spaces (indent_level + 4) +:+ "return {}" +:+ NL ].
Proof.
  intros Hline Hexc.
  set (l1 := spaces indent_level +:+ "try:").
  set (l2 := spaces (indent_level + 4) +:+ strip line).
  set (l3 := spaces indent_level +:+ "except " +:+ exception_type +:+ ":").
  set (l4 := spaces (indent_level + 4) +:+ "return {}").
  assert (Hwrap : wrap_in_try_except line exception_type indent_level
                  = concat [l1 +:+ NL; l2 +:+ NL; l3 +:+ NL; l4 +:+ NL]).
  { unfold wrap_in_try_except, concat, l1, l2, l3, l4. cbn [fold_right].
    rewrite !append_assoc, append_nil_r. reflexivity. }
  assert (Hlit : forall s, has_char LF s = false -> has_char CR s = false ->
                           one_line s) by (intros; split; assumption).
  rewrite Hwrap, readlines_concat.
  - unfold l1, l2, l3, l4. now rewrite !append_assoc.
  - repeat (apply Forall_cons; split); try apply Forall_nil; try exact I;
      apply terminated_of_one_line; unfold l1, l2, l3, l4;
      repeat apply one_line_app; try apply one_line_spaces; try assumption;
      apply Hlit; reflexivity.
Qed.

Lemma wrap_in_try_except_is_four_lines_witness :
  readlines (wrap_in_try_except (ln "    x = d['a']['b']") "KeyError" 4)
  = [ spaces 4 +:+ "try:" +:+ NL;
      spaces (4 + 4) +:+ strip (ln "    x = d['a']['b']") +:+ NL;
      spaces 4 +:+ "except " +:+ "KeyError" +:+ ":" +:+ NL;
      spaces (4 + 4) +:+ "return {}" +:+ NL ].
Proof.
  apply wrap_in_try_except_is_four_lines; split; vm_compute; reflexivity.
Defined.

Lemma wrap_block_line_shift (base_indent : nat) (block_line : string) :
  strip block_line <> "" ->
  lstrip (wrap_block_line base_indent block_line) = lstrip block_line
  /\ indent_width (wrap_block_line base_indent block_line)
     = Nat.max (indent_width block_line) base_indent + 4.
Proof.
  intros Hblank. unfold wrap_block_line.
  apply String.eqb_neq in Hblank. rewrite Hblank. cbn [negb].
  destruct (lstrip_split block_line) as (ws & Hsplit & _ & Hhead).
  assert (Hfix : lstrip (lstrip block_line) = lstrip block_line)
    by now apply lstrip_fixed.
  assert (Hl : lstrip (spaces (base_indent + 4)
                       +:+ spaces (indent_width block_line - base_indent)
                       +:+ lstrip block_line) = lstrip block_line)
    by now rewrite !lstrip_spaces.
  split; [exact Hl |].
  unfold indent_width at 1. rewrite Hl, !len_app, !len_spaces.
  pose proof (Nat.max_spec (indent_width block_line) base_indent). lia.
Qed.

Lemma one_line_lstrip (s : string) : one_line s -> one_line (lstrip s).
Proof.
  destruct (lstrip_split s) as (ws & Hsplit & _).
  unfold one_line. rewrite Hsplit at 1 2. rewrite !has_char_app.
  intros [H1 H2]. apply orb_false_iff in H1 as [_ H1].
  apply orb_false_iff in H2 as [_ H2]. now split.
Qed.

Lemma one_line_wrap_block_line (base_indent : nat) (block_line : string) :
  one_line block_line -> one_line (wrap_block_line base_indent block_line).
Proof.
  intros Hline. unfold wrap_block_line.
  destruct (negb (String.eqb (strip block_line) "")); [| now split].
  repeat apply one_line_app; try apply one_line_spaces.
  now apply one_line_lstrip.
Qed.

Lemma join_terminated (l : list string) :
  l <> [] -> join NL l +:+ NL = concat (map (fun x => x +:+ NL) l).
Proof.
  induction l as [|x [|y rest] IH]; intros Hne; [now destruct Hne | |].
  - unfold concat. simpl. now rewrite append_nil_r.
  - change (join NL (x :: y :: rest)) with (x +:+ NL +:+ join NL (y :: rest)).
    rewrite !append_assoc, IH by discriminate.
    cbn [map]. rewrite (concat_cons (x +:+ NL)). symmetry. apply append_assoc.
Qed.

(** X5: the text that [wrap_block_in_try_except] returns is read as the
    [try:] line at the base indentation, one line for each line of the
    block, the [except] clause at the base indentation and [return {}] four
    columns deeper.  The line of a blank block line is empty; the line of
    any other block line has the text of that line, moved four columns to
    the right of where it was, or of the base indentation if it was left of
    it. *)
Theorem wrap_block_in_try_except_shifts_lines (block_lines : list string)
    (base_indent : nat) (exception_type : string) :
  Forall one_line block_lines ->
  one_line exception_type ->
  readlines (wrap_block_in_try_except block_lines base_indent exception_type)
  = (spaces base_indent +:+ "try:" +:+ NL)
    :: map (fun l => wrap_block_line base_indent l +:+ NL) block_lines
    ++ [ spaces base_indent +:+ "except " +:+ exception_type +:+ ":" +:+ NL;
         spaces (base_indent + 4) +:+ "return {}" +:+ NL ]
  /\ forall i l,
       block_lines !! i = Some l ->
       exists out,
         readlines (wrap_block_in_try_except block_lines base_indent
                      exception_type) !! (S i) = Some (out +:+ NL)
         /\ (strip l = "" -> out = "")
         /\ (strip l <> "" ->
             lstrip out = lstrip l
             /\ indent_width out = Nat.max (indent_width l) base_indent + 4).
Proof.
  intros Hblock Hexc.
  assert (Hlit : forall s, has_char LF s = false -> has_char CR s = false ->
                           one_line s) by (intros; split; assumption).
  assert (Hread :
    readlines (wrap_block_in_try_except block_lines base_indent exception_type)
    = (spaces base_indent +:+ "try:" +:+ NL)
      :: map (fun l => wrap_block_line base_indent l +:+ NL) block_lines
      ++ [ spaces base_indent +:+ "except " +:+ exception_type +:+ ":" +:+ NL;
           spaces (base_indent + 4) +:+ "return {}" +:+ NL ]).
  { unfold wrap_block_in_try_except. cbv zeta.
    rewrite join_terminated by discriminate.
    rewrite readlines_concat.
    - cbn [app map]. rewrite !map_app, map_map. cbn [map app].
      now rewrite !append_assoc.
    - apply Forall_map. cbn [app].
      apply Forall_cons. split.
      { apply terminated_of_one_line. apply one_line_app;
          [apply one_line_spaces | now apply Hlit]. }
      apply Forall_app. split.
      { apply Forall_map. eapply Forall_impl; [exact Hblock |].
        intros l Hl. apply terminated_of_one_line.
        now apply one_line_wrap_block_line. }
      apply Forall_cons. split.
      { apply terminated_of_one_line.
        repeat apply one_line_app; try apply one_line_spaces; try assumption;
          now apply Hlit. }
      apply Forall_cons. split; [| apply Forall_nil; exact I].
      apply terminated_of_one_line. apply one_line_app;
        [apply one_line_spaces | now apply Hlit]. }
  split; [exact Hread |].
  intros i l Hi. exists (wrap_block_line base_indent l). split; [| split].
  - rewrite Hread.
    change ((?x :: ?rest) !! S i) with (rest !! i).
    rewrite lookup_app_l by (rewrite length_map; eapply lookup_lt_Some; exact Hi).
    now rewrite list_lookup_fmap, Hi.
  - intros Hblank. unfold wrap_block_line. now rewrite Hblank.
  - apply wrap_block_line_shift.
Qed.

Lemma wrap_block_in_try_except_shifts_lines_witness :
  let block := [ "    with open(p) as f:"; "        x = f.read()"; "";
                 "      y = len(x)" ] in
  readlines (wrap_block_in_try_except block 4 "FileNotFoundError")
  = (spaces 4 +:+ "try:" +:+ NL)
    :: map (fun l => wrap_block_line 4 l +:+ NL) block
    ++ [ spaces 4 +:+ "except " +:+ "FileNotFoundError" +:+ ":" +:+ NL;
         spaces (4 + 4) +:+ "return {}" +:+ NL ]
  /\ forall i l,
       block !! i = Some l ->
       exists out,
         readlines (wrap_block_in_try_except block 4 "FileNotFoundError")
           !! (S i) = Some (out +:+ NL)
         /\ (strip l = "" -> out = "")
         /\ (strip l <> "" ->
             lstrip out = lstrip l
             /\ indent_width out = Nat.max (indent_width l) 4 + 4).
Proof.
  intros block.
  apply wrap_block_in_try_except_shifts_lines.
  - repeat (apply Forall_cons; split; [split; reflexivity |]).
    apply Forall_nil. exact I.
  - split; reflexivity.
Defined.

(** X6: the block that [get_indented_block] returns never reaches past the
    end of the buffer; it is empty exactly when the start index is out of
    range, and otherwise it begins with the right-stripped first line and
    carries the indentation of that line. *)
Theorem get_indented_block_within_buffer (lines : list string) (start_idx : nat) :
  List.length (get_indented_block lines start_idx).1
    <= List.length lines - start_idx
  /\ ((get_indented_block lines start_idx).1 = []
      <-> List.length lines <= start_idx)
  /\ (forall first,
        lines !! start_idx = Some first ->
        head (get_indented_block lines start_idx).1 = Some (rstrip first)
        /\ (get_indented_block lines start_idx).2 = indent_width first).
Proof.
  destruct (lines !! start_idx) as [first|] eqn:Hfirst.
  - destruct (get_indented_block_span lines start_idx first Hfirst)
      as (body & after & Hdrop & Hlen & Hbase & _).
    pose proof (lookup_lt_Some _ _ _ Hfirst) as Hlt.
    assert (Hd : List.length (drop start_idx lines)
                 = S (List.length body + List.length after))
      by (rewrite Hdrop; simpl; now rewrite length_app).
    rewrite length_drop in Hd.
    split; [lia |]. split.
    + split; [intros Hnil; rewrite Hnil in Hlen; discriminate Hlen | lia].
    + intros first' [= <-]. split; [| exact Hbase].
      unfold get_indented_block. now rewrite (drop_S _ _ _ Hfirst).
  - pose proof (lookup_ge_None_1 _ _ Hfirst) as Hge.
    unfold get_indented_block. rewrite (drop_ge _ _ Hge). simpl.
    split; [lia |]. split; [tauto | intros first' [=]].
Qed.

Lemma get_indented_block_within_buffer_witness :
  head (get_indented_block nested_with_block 1).1
    = Some (rstrip (ln "    with open(p) as f:"))
  /\ (get_indented_block nested_with_block 1).2
     = indent_width (ln "    with open(p) as f:").
Proof.
  destruct (get_indented_block_within_buffer nested_with_block 1) as (_ & _ & H).
  apply H. reflexivity.
Defined.

(** ** The failure class that [parse_error] reports *)

Lemma has_char_reverse (c : ascii) (s : string) :
  has_char c (reverse s) = has_char c s.
Proof.
  induction s as [|x s IH]; [reflexivity |].
  rewrite reverse_cons, has_char_app, IH. simpl.
  rewrite orb_false_r. apply orb_comm.
Qed.

Lemma has_char_before_first (c : ascii) (s : string) :
  has_char c (before_first c s) = false.
Proof.
  induction s as [|x s IH]; [reflexivity |].
  simpl. destruct (Ascii.eqb x c) eqn:Hx; [reflexivity |].
  simpl. rewrite IH, orb_false_r. now rewrite Ascii.eqb_sym.
Qed.

Lemma has_char_after_last (c : ascii) (s : string) :
  has_char c (after_last c s) = false.
Proof.
  unfold after_last. rewrite has_char_reverse. apply has_char_before_first.
Qed.

Lemma potential_error_without_dot (line : string) :
  has_char "." (potential_error_of line) = false.
Proof.
  unfold potential_error_of.
  destruct (has_char "." (strip (before_first ":" line))) eqn:Hdot;
    [apply has_char_after_last | exact Hdot].
Qed.

Lemma find_error_type_sound (ERROR_DATABASE : database)
    (reversed_lines : list string) (error_type : string) :
  find_error_type ERROR_DATABASE reversed_lines = Some error_type ->
  has_char "." error_type = false
  /\ (in_database ERROR_DATABASE error_type = true
      \/ endswith error_type "Error" = true)
  /\ exists line, line ∈ reversed_lines
                  /\ has_char ":" line = true
                  /\ error_type = potential_error_of line.
Proof.
  induction reversed_lines as [|line rest IH]; [intros [=] |].
  simpl.
  destruct (truthy_str (strip line) && has_char ":" line) eqn:Hline.
  - destruct (in_database ERROR_DATABASE (potential_error_of line)
              || endswith (potential_error_of line) "Error") eqn:Hknown.
    + intros [= <-]. split; [apply potential_error_without_dot |].
      split; [now apply orb_true_iff |].
      exists line. apply andb_true_iff in Hline as [_ Hcolon].
      repeat split; [apply list_elem_of_here | exact Hcolon].
    + intros H. destruct (IH H) as (H1 & H2 & l & Hl & Hc & He).
      repeat split; try assumption. exists l.
      repeat split; try assumption. now apply list_elem_of_further.
  - intros H. destruct (IH H) as (H1 & H2 & l & Hl & Hc & He).
    repeat split; try assumption. exists l.
    repeat split; try assumption. now apply list_elem_of_further.
Qed.

(** X7: the failure class that [parse_error] reports is the text before
    the first colon of a line of the output, cut down to what follows its
    last dot; it holds no dot, and it is a key of the registry or ends with
    [Error].  The message that is returned is the output as it was. *)
Theorem parse_error_class_is_unqualified (ERROR_DATABASE : database)
    (abspath : string -> string) (stderr : string)
    (target_script : option string) (error_type : string)
    (error_file : option string) (error_line : option nat) (message : string) :
  parse_error ERROR_DATABASE abspath stderr target_script
    = (Some error_type, error_file, error_line, message) ->
  has_char "." error_type = false
  /\ (in_database ERROR_DATABASE error_type = true
      \/ endswith error_type "Error" = true)
  /\ (exists line, line ∈ split (strip stderr) LF
                   /\ has_char ":" line = true
                   /\ error_type = potential_error_of line)
  /\ message = stderr.
Proof.
  unfold parse_error. intros Hparse.
  destruct (select_frame abspath _ target_script) as [ef el].
  injection Hparse as Htype _ _ <-.
  destruct (find_error_type_sound _ _ _ Htype) as (H1 & H2 & line & Hin & Hc & He).
  repeat split; try assumption.
  exists line. repeat split; try assumption.
  apply list_elem_of_In. apply list_elem_of_In in Hin. now apply in_rev.
Qed.

Lemma parse_error_class_is_unqualified_witness :
  has_char "." "JSONDecodeError" = false
  /\ (in_database ERROR_DATABASE_excerpt "JSONDecodeError" = true
      \/ endswith "JSONDecodeError" "Error" = true)
  /\ (exists line, line ∈ split (strip sample_traceback) LF
                   /\ has_char ":" line = true
                   /\ "JSONDecodeError" = potential_error_of line)
  /\ sample_traceback = sample_traceback.
Proof.
  apply (parse_error_class_is_unqualified ERROR_DATABASE_excerpt (fun f => f)
           sample_traceback (Some "app.py") "JSONDecodeError"
           (Some "app.py") (Some 12) sample_traceback).
  vm_compute. reflexivity.
Defined.

(** ** What a successful patch has done *)

(** X8: when [fix_error] returns success, the class is in the registry,
    the line is in range, and the file holds the patch of one pattern: the
    first pattern of the class, in the order of the list, whose attempt
    went through.  The attempt of every pattern before it failed: its
    trigger did not match, its branch yielded no patch, or the write of its
    patch raised; the patch that is written is made of the list as these
    attempts left it.  The last line printed names the pattern. *)
Theorem fix_error_success_inversion (ERROR_DATABASE : database) (w : world)
    (file_path error_type : string) (line_number : nat)
    (error_message : string) (w' : world) (evs : list event) :
  fix_error ERROR_DATABASE w file_path error_type line_number error_message
    = (true, w', evs) ->
  exists patterns lines target_line k p lines',
    ERROR_DATABASE !! error_type = Some patterns
    /\ read_lines w = Some lines
    /\ 1 <= line_number <= List.length lines
    /\ lines !! (line_number - 1) = Some target_line
    /\ patterns !! k = Some p
    /\ detect p target_line = true
    /\ (forall j q, j < k -> patterns !! j = Some q ->
          attempt_fails error_type line_number target_line
            (get_indent target_line) error_message q
            (state_before error_type line_number target_line
               (get_indent target_line) error_message patterns j (lines, w)).1
            (state_before error_type line_number target_line
               (get_indent target_line) error_message patterns j (lines, w)).2)
    /\ patch_of p
         (state_before error_type line_number target_line
            (get_indent target_line) error_message patterns k (lines, w)).1
         error_type line_number target_line (get_indent target_line)
         error_message = Some lines'
    /\ w' = written
              (state_before error_type line_number target_line
                 (get_indent target_line) error_message patterns k (lines, w)).2
              lines'
    /\ last evs = Some (fix_event p error_type line_number k).
Proof.
  intros Hrun.
  destruct (fix_error_cases ERROR_DATABASE w file_path error_type line_number
              error_message)
    as [(evs0 & Heq & _)
       | (patterns & lines & target & Hdb & Hread & Hin & Ht & Heq)];
    rewrite Heq in Hrun; [discriminate Hrun |].
  destruct (try_patterns_success _ _ _ _ _ _ _ _ _ _ _ Hrun)
    as (k & p & Hk & Hfails & (Hdet & lines' & Hpatch & Hwrite) & Hlast).
  apply write_back_completed in Hwrite as (_ & _ & Hw').
  exists patterns, lines, target, k, p, lines'.
  repeat split; try assumption; lia.
Qed.

(** The literal-key rule of KeyError matches the line and the write of its
    patch raises; the variable-key rule is the one whose patch is in the
    file. *)
Lemma fix_error_success_inversion_witness :
  let w := file_with_writes [ln "  v = d['a'] + e[k]"] [write_raises 0] in
  exists patterns lines target_line k p lines',
    ERROR_DATABASE_excerpt !! "KeyError" = Some patterns
    /\ read_lines w = Some lines
    /\ 1 <= 1 <= List.length lines
    /\ lines !! (1 - 1) = Some target_line
    /\ patterns !! k = Some p
    /\ detect p target_line = true
    /\ (forall j q, j < k -> patterns !! j = Some q ->
          attempt_fails "KeyError" 1 target_line
            (get_indent target_line) "KeyError: 'a'" q
            (state_before "KeyError" 1 target_line
               (get_indent target_line) "KeyError: 'a'" patterns j (lines, w)).1
            (state_before "KeyError" 1 target_line
               (get_indent target_line) "KeyError: 'a'" patterns j (lines, w)).2)
    /\ patch_of p
         (state_before "KeyError" 1 target_line
            (get_indent target_line) "KeyError: 'a'" patterns k (lines, w)).1
         "KeyError" 1 target_line (get_indent target_line)
         "KeyError: 'a'" = Some lines'
    /\ file_of_lines [ln "  v = d['a'] + e.get(k, None)"]
       = written
           (state_before "KeyError" 1 target_line
              (get_indent target_line) "KeyError: 'a'" patterns k (lines, w)).2
           lines'
    /\ last [ERROR_failed_to_apply; FIX_applied "KeyError" 1 3]
       = Some (fix_event p "KeyError" 1 k).
Proof.
  intros w.
  apply (fix_error_success_inversion ERROR_DATABASE_excerpt w "app.py"
           "KeyError" 1 "KeyError: 'a'").
  vm_compute. reflexivity.
Defined.

(** X9: the patch of a callable leaves every line above the failing line
    as it was.  When the line does not open a block, it replaces that one
    entry of the buffer by the text that the callable returns, with a final
    LF added if the pattern is not multi-line, and leaves the number of
    entries and every entry below as they were. *)
Theorem callable_patch_is_local
    (f : string -> string -> string -> option string) (p : pattern)
    (lines : list string) (error_type : string) (line_number : nat)
    (target_line indent error_message : string) (lines' : list string) :
  1 <= line_number ->
  lines !! (line_number - 1) = Some target_line ->
  apply_callable f p lines error_type line_number target_line indent
    error_message = Some lines' ->
  take (line_number - 1) lines' = take (line_number - 1) lines
  /\ (needs_block_wrap p target_line = false ->
      List.length lines' = List.length lines
      /\ drop line_number lines' = drop line_number lines
      /\ exists fixed,
           f target_line indent error_message = Some fixed
           /\ lines' !! (line_number - 1)
              = Some (if multiline p then fixed else ensure_newline fixed)).
Proof.
  intros Hpos Htarget Happly.
  pose proof (lookup_lt_Some _ _ _ Htarget) as Hlt.
  assert (Hset : forall v l',
    set_line lines (line_number - 1) v = Some l' ->
    take (line_number - 1) l' = take (line_number - 1) lines
    /\ List.length l' = List.length lines
    /\ drop line_number l' = drop line_number lines
    /\ l' !! (line_number - 1) = Some v).
  { intros v l' Hl'. unfold set_line in Hl'.
    destruct (line_number - 1 <? List.length lines); [| discriminate Hl'].
    injection Hl' as <-.
    rewrite take_insert_ge by lia. rewrite length_insert.
    rewrite drop_insert_lt by lia.
    rewrite list_lookup_insert_eq by exact Hlt. auto. }
  unfold apply_callable in Happly.
  destruct (needs_block_wrap p target_line) eqn:Hwrap.
  - split; [| intros [=]].
    destruct (get_indented_block lines (line_number - 1)) as [block base].
    destruct block as [|b bs].
    + destruct (f target_line indent error_message) as [fixed|];
        [| discriminate Happly].
      now destruct (Hset _ _ Happly) as (H1 & _).
    + destruct (if in_block_classes error_type then _ else _) as [fixed|];
        [| discriminate Happly].
      simpl in Happly. injection Happly as <-.
      apply take_app_length'. rewrite length_take. lia.
  - destruct (f target_line indent error_message) as [fixed|] eqn:Hf.
    + destruct (multiline p); simpl in Happly;
        destruct (Hset _ _ Happly) as (H1 & H2 & H3 & H4);
        (split; [exact H1 |]); intros _; repeat split; try assumption;
        exists fixed; auto.
    + destruct (multiline p); discriminate Happly.
Qed.

Lemma callable_patch_is_local_witness :
  let lines := [ln "a = 1"; ln "  v = d['a'] + e[k]"; ln "b = 2"] in
  let lines' := [ln "a = 1"; ln "  v = d.get('a', None) + e[k]"; ln "b = 2"] in
  take (2 - 1) lines' = take (2 - 1) lines
  /\ (needs_block_wrap literal_key_pattern (ln "  v = d['a'] + e[k]") = false ->
      List.length lines' = List.length lines
      /\ drop 2 lines' = drop 2 lines
      /\ exists fixed,
           Some (sub_first literal_key_at (ln "  v = d['a'] + e[k]")) = Some fixed
           /\ lines' !! (2 - 1)
              = Some (if multiline literal_key_pattern then fixed
                      else ensure_newline fixed)).
Proof.
  intros lines lines'.
  apply (callable_patch_is_local
           (fun line indent error_msg => Some (sub_first literal_key_at line))
           literal_key_pattern lines "KeyError" 2 (ln "  v = d['a'] + e[k]")
           "  " "KeyError: 'a'" lines').
  - lia.
  - reflexivity.
  - vm_compute. reflexivity.
Defined.

(** X10: for a class other than FileNotFoundError, JSONDecodeError and
    PermissionError, the patch of a line that opens a block replaces the
    whole block, header and body, by the lines that the callable makes of
    the header alone: the lines of the body are not in the result. *)
Theorem block_patch_of_other_class_drops_body
    (f : string -> string -> string -> option string) (p : pattern)
    (lines : list string) (error_type : string) (line_number : nat)
    (target_line indent error_message fixed : string) :
  needs_block_wrap p target_line = true ->
  in_block_classes error_type = false ->
  lines !! (line_number - 1) = Some target_line ->
  f target_line indent error_message = Some fixed ->
  exists body after,
    lines = take (line_number - 1) lines ++ target_line :: body ++ after
    /\ apply_callable f p lines error_type line_number target_line indent
         error_message
       = Some (take (line_number - 1) lines ++ new_lines_of fixed ++ after)
    /\ Forall (fun l => continues_block (indent_width target_line) l = true) body
    /\ match after with
       | [] => True
       | l :: _ => continues_block (indent_width target_line) l = false
       end.
Proof.
  intros Hwrap Hclass Htarget Hf.
  destruct (get_indented_block_span lines (line_number - 1) target_line Htarget)
    as (body & after & Hdrop & Hlen & _ & Hall & Hstop).
  exists body, after.
  assert (Hsplit : lines = take (line_number - 1) lines
                           ++ target_line :: body ++ after)
    by (rewrite <- Hdrop; symmetry; apply take_drop).
  split; [exact Hsplit |]. split; [| split; assumption].
  unfold apply_callable. rewrite Hwrap.
  destruct (get_indented_block lines (line_number - 1)) as [block base].
  simpl in Hlen. destruct block as [|b bs]; [discriminate Hlen |].
  rewrite Hclass, Hf. cbn [mbind option_bind]. do 3 f_equal.
  rewrite Hlen, <- drop_drop, Hdrop. simpl. now rewrite drop_app_length.
Qed.

Lemma block_patch_of_other_class_drops_body_witness :
  exists body after,
    loop_over_chained_access
    = take (1 - 1) loop_over_chained_access
      ++ ln "for k in d['a']['b']:" :: body ++ after
    /\ apply_callable
         (fun line indent error_msg =>
            Some (wrap_in_try_except line "(IndexError, KeyError, TypeError)"
                    (len indent)))
         chained_access_pattern loop_over_chained_access "KeyError" 1
         (ln "for k in d['a']['b']:") "" "KeyError: 'b'"
       = Some (take (1 - 1) loop_over_chained_access
               ++ new_lines_of
                    (wrap_in_try_except (ln "for k in d['a']['b']:")
                       "(IndexError, KeyError, TypeError)" 0)
               ++ after)
    /\ Forall (fun l => continues_block
                          (indent_width (ln "for k in d['a']['b']:")) l = true) body
    /\ match after with
       | [] => True
       | l :: _ => continues_block (indent_width (ln "for k in d['a']['b']:")) l
                   = false
       end.
Proof.
  apply block_patch_of_other_class_drops_body; vm_compute; reflexivity.
Defined.

(** The header of the loop is wrapped and its body is gone. *)
Example loop_body_is_lost :
  fix_error ERROR_DATABASE_excerpt (file_of_lines loop_over_chained_access)
    "app.py" "KeyError" 1 "KeyError: 'b'"
  = (true,
     file_of_lines
       [ ln "try:";
         ln "    for k in d['a']['b']:";
         ln "except (IndexError, KeyError, TypeError):";
         ln "    return {}";
         ln "x = 1" ],
     [FIX_applied "KeyError" 1 1]).
Proof. by_evaluation. Qed.

(** ** The NameError and ImportError patches *)

Example name_error_patch :
  fix_error ERROR_DATABASE_names
    (file_of_lines [ln "def f():"; ln "    return total + 1"])
    "app.py" "NameError" 2 "NameError: name 'total' is not defined"
  = (true,
     file_of_lines
       [ ln "def f():";
         ln "    total = None  # Initialize variable";
         ln "    return total + 1" ],
     [FIX_applied "NameError" 2 1]).
Proof. by_evaluation. Qed.

Example import_error_patch :
  fix_error ERROR_DATABASE_names (file_of_lines [ln "import yaml"])
    "app.py" "ModuleNotFoundError" 1
    "ModuleNotFoundError: No module named 'yaml'"
  = (true,
     file_of_lines
       [ ln "try:";
         ln "    import yaml";
         ln "except (ImportError, ModuleNotFoundError):";
         ln "    # Module 'yaml' not installed. Run: pip install yaml";
         ln "    pass" ],
     [FIX_applied "ModuleNotFoundError" 1 1]).
Proof. by_evaluation. Qed.

(** A dotted module name is not read from the message; the line is left
    as it is and the patch is reported as applied. *)
Example import_error_dotted_module :
  fix_error ERROR_DATABASE_names (file_of_lines [ln "import google.cloud"])
    "app.py" "ModuleNotFoundError" 1
    "ModuleNotFoundError: No module named 'google.cloud'"
  = (true, file_of_lines [ln "import google.cloud"],
     [FIX_applied "ModuleNotFoundError" 1 1]).
Proof. by_evaluation. Qed.

Lemma span_while_all (p : ascii -> bool) (s a b : string) :
  span_while p s = (a, b) -> all_chars p a = true /\ s = a +:+ b.
Proof.
  revert a b. induction s as [|c s IH]; intros a b.
  - intros [= <- <-]. now split.
  - simpl. destruct (p c) eqn:Hc.
    + destruct (span_while p s) as [a' b'].
      intros [= <- <-]. destruct (IH a' b' eq_refl) as [Ha ->].
      split; [simpl; now rewrite Hc, Ha | reflexivity].
    + intros [= <- <-]. now split.
Qed.

Lemma word_chars_one_line (s : string) : all_chars is_word s = true -> one_line s.
Proof.
  induction s as [|c s IH]; [now split |].
  simpl. intros H. apply andb_true_iff in H as [Hc Hs].
  destruct (IH Hs) as [H1 H2]. unfold one_line. cbn [has_char].
  rewrite H1, H2. split; rewrite orb_false_r.
  - destruct (Ascii.eqb LF c) eqn:E; [| reflexivity].
    apply Ascii.eqb_eq in E as <-. discriminate Hc.
  - destruct (Ascii.eqb CR c) eqn:E; [| reflexivity].
    apply Ascii.eqb_eq in E as <-. discriminate Hc.
Qed.

Lemma name_not_defined_is_word (s var_name : string) :
  name_not_defined_at s = Some var_name -> all_chars is_word var_name = true.
Proof.
  unfold name_not_defined_at.
  destruct (strip_prefix "name '" s) as [rest|]; [| intros [=]].
  destruct (span_while is_word rest) as [a b] eqn:Hspan.
  apply span_while_all in Hspan as [Ha _].
  destruct a as [|c a]; [intros [=] |].
  destruct (strip_prefix "' is not defined" b); [| intros [=]].
  now intros [= <-].
Qed.

Lemma ensure_newline_terminated (body : string) :
  ensure_newline (body +:+ NL) = body +:+ NL.
Proof.
  unfold ensure_newline, endswith.
  rewrite reverse_app. change (reverse NL) with NL.
  change (NL +:+ reverse body) with (String LF (reverse body)).
  destruct (reverse body); reflexivity.
Qed.

Lemma ensure_newline_unterminated (x body : string) :
  body <> "" -> has_char LF body = false ->
  ensure_newline (x +:+ body) = x +:+ body +:+ NL.
Proof.
  intros Hne Hlf. unfold ensure_newline, endswith.
  rewrite reverse_app. change (reverse NL) with NL.
  destruct (reverse body) as [|c r] eqn:Hrev.
  - exfalso. apply Hne. rewrite <- (reverse_involutive body), Hrev. reflexivity.
  - assert (Hc : Ascii.eqb LF c = false).
    { pose proof (has_char_reverse LF body) as H. rewrite Hrev, Hlf in H.
      cbn [has_char] in H. now apply orb_false_iff in H as [H _]. }
    rewrite append_cons. unfold NL. cbn [String.prefix].
    destruct (ascii_dec LF c) as [<- |];
      [rewrite Ascii.eqb_refl in Hc; discriminate Hc |].
    apply append_assoc.
Qed.

(** X11: a NameError on a line in range of a file that can be read, when
    the write completes, is always reported as fixed: the one pattern of
    the class matches every line and its callable never raises.  When the
    message does not name the variable, the buffer that is written is the
    buffer that was read, but for the LF that the failing line gets when it
    is the last line of the file and has none. *)
Theorem name_error_patch_always_applies (ERROR_DATABASE : database) (w : world)
    (file_path : string) (line_number : nat) (error_message : string)
    (lines : list string) (target_line : string) :
  ERROR_DATABASE !! "NameError" = Some NameError_patterns ->
  read_lines w = Some lines ->
  writable w = true ->
  next_write w = write_completes ->
  1 <= line_number ->
  lines !! (line_number - 1) = Some target_line ->
  fix_error ERROR_DATABASE w file_path "NameError" line_number error_message
  = (true,
     written w
       (<[line_number - 1 :=
            ensure_newline
              (_fix_name_error target_line (get_indent target_line) error_message)]>
          lines),
     [FIX_applied "NameError" line_number 1])
  /\ (search_name_not_defined error_message = None ->
      (endswith target_line NL = true ->
       <[line_number - 1 :=
           ensure_newline
             (_fix_name_error target_line (get_indent target_line) error_message)]>
         lines = lines)
      /\ (endswith target_line NL = false ->
          <[line_number - 1 :=
              ensure_newline
                (_fix_name_error target_line (get_indent target_line)
                   error_message)]>
            lines = <[line_number - 1 := target_line +:+ NL]> lines)).
Proof.
  intros Hdb Hread Hw Hnext Hpos Htarget.
  pose proof (lookup_lt_Some _ _ _ Htarget) as Hlt.
  split.
  - rewrite (fix_error_reaches_loop _ _ file_path _ _ error_message _ _ _
               Hdb Hread Hpos Htarget).
    unfold NameError_patterns.
    apply (try_patterns_attempt_completes "NameError" line_number target_line
             (get_indent target_line) error_message name_error_pattern []
             0 lines w).
    split; [apply re_search_anything |].
    eexists. split; [| now apply write_back_written].
    unfold patch_of, name_error_pattern. cbn [fix_ multiline].
    unfold apply_callable. cbn [multiline needs_block_wrap andb].
    unfold needs_block_wrap. cbn [multiline andb mbind option_bind].
    unfold set_line. apply Nat.ltb_lt in Hlt. now rewrite Hlt.
  - intros Hnone. unfold _fix_name_error, ensure_newline. rewrite Hnone.
    split; intros ->; [now apply list_insert_id | reflexivity].
Qed.

Lemma name_error_patch_always_applies_witness :
  let w := file_of_lines [ln "x = 1"; "print(total)"] in
  fix_error ERROR_DATABASE_names w "app.py" "NameError" 2 "NameError"
  = (true,
     written w
       (<[2 - 1 :=
            ensure_newline
              (_fix_name_error "print(total)"
                 (get_indent "print(total)") "NameError")]>
          [ln "x = 1"; "print(total)"]),
     [FIX_applied "NameError" 2 1])
  /\ (search_name_not_defined "NameError" = None ->
      (endswith "print(total)" NL = true ->
       <[2 - 1 :=
           ensure_newline
             (_fix_name_error "print(total)"
                (get_indent "print(total)") "NameError")]>
         [ln "x = 1"; "print(total)"] = [ln "x = 1"; "print(total)"])
      /\ (endswith "print(total)" NL = false ->
          <[2 - 1 :=
              ensure_newline
                (_fix_name_error "print(total)"
                   (get_indent "print(total)") "NameError")]>
            [ln "x = 1"; "print(total)"]
          = <[2 - 1 := "print(total)" +:+ NL]> [ln "x = 1"; "print(total)"])).
Proof.
  intros w.
  apply (name_error_patch_always_applies ERROR_DATABASE_names w "app.py" 2
           "NameError" [ln "x = 1"; "print(total)"] "print(total)").
  - vm_compute. reflexivity.
  - vm_compute. reflexivity.
  - reflexivity.
  - reflexivity.
  - lia.
  - reflexivity.
Defined.

(** X12: when the message names the variable, the entry that
    [_fix_name_error] makes for a failing line as the reading yields it (a
    text without line break with its LF, or without LF when it is the last
    line of a file that does not end with one) is read back as two lines:
    the initializer of that variable at the indentation of the line, and
    right below it the failing line, with its LF. *)
Theorem name_error_initializer_goes_above (line body error_msg var_name : string) :
  search_name_not_defined error_msg = Some var_name ->
  one_line body ->
  line = body +:+ NL \/ (line = body /\ body <> "") ->
  readlines (ensure_newline (_fix_name_error line (get_indent line) error_msg))
  = [ get_indent line +:+ var_name +:+ " = None  # Initialize variable" +:+ NL;
      body +:+ NL ].
Proof.
  intros Hname [Hlf Hcr] Hline. unfold _fix_name_error. rewrite Hname.
  assert (Hvar : one_line var_name).
  { unfold search_name_not_defined in Hname.
    destruct (leftmost name_not_defined_at error_msg) as [[before v]|] eqn:Hleft;
      [| discriminate Hname].
    injection Hname as <-.
    destruct (leftmost_found _ _ _ _ Hleft) as [rest Hrest].
    apply word_chars_one_line. eapply name_not_defined_is_word. exact Hrest. }
  set (indent := get_indent line).
  assert (Hindent : one_line indent) by apply one_line_spaces.
  set (init := indent +:+ var_name +:+ " = None  # Initialize variable").
  assert (Hend : ensure_newline
                   (indent +:+ var_name +:+ " = None  # Initialize variable"
                    +:+ NL +:+ line)
                 = concat [init +:+ NL; body +:+ NL]).
  { replace (concat [init +:+ NL; body +:+ NL])
      with ((init +:+ NL) +:+ body +:+ NL)
      by (unfold concat; cbn [fold_right]; now rewrite append_nil_r).
    replace (indent +:+ var_name +:+ " = None  # Initialize variable"
             +:+ NL +:+ line)
      with ((init +:+ NL) +:+ line)
      by (unfold init; now rewrite !append_assoc).
    destruct Hline as [-> | [-> Hne]].
    - rewrite <- append_assoc. apply ensure_newline_terminated.
    - now apply ensure_newline_unterminated. }
  rewrite Hend, readlines_concat.
  - unfold init. now rewrite !append_assoc.
  - apply Forall_cons. split.
    + apply terminated_of_one_line. unfold init.
      repeat apply one_line_app; try assumption. now split.
    + apply Forall_cons. split; [now exists body | apply Forall_nil; exact I].
Qed.

Lemma name_error_initializer_goes_above_witness :
  readlines (ensure_newline
               (_fix_name_error "    return total + 1"
                  (get_indent "    return total + 1")
                  "NameError: name 'total' is not defined"))
  = [ get_indent "    return total + 1" +:+ "total"
        +:+ " = None  # Initialize variable" +:+ NL;
      "    return total + 1" +:+ NL ].
Proof.
  apply name_error_initializer_goes_above.
  - vm_compute. reflexivity.
  - split; reflexivity.
  - right. split; [reflexivity | discriminate].
Defined.

(** ** The turns of the repair loop *)

Section Turns.

Variable ERROR_DATABASE : database.
Variable abspath : string -> string.
Variable run_and_capture_error : nat -> world -> option string.
Variable script_path : string.
Variable max_iterations : nat.

Local Abbreviation body :=
  (loop_body ERROR_DATABASE abspath run_and_capture_error script_path
     max_iterations).
Local Abbreviation run_ :=
  (run_session ERROR_DATABASE abspath run_and_capture_error script_path
     max_iterations).

Local Abbreviation next_run_clean :=
  (run_is_clean run_and_capture_error).

Lemma after_loop_printed (s : session) :
  printed (after_loop max_iterations s)
  = printed s ++ timeout_report max_iterations (iteration s).
Proof.
  unfold after_loop, timeout_report.
  destruct (max_iterations <=? iteration s); [reflexivity |].
  now rewrite app_nil_r.
Qed.

Lemma break_turn_file (clean : bool) (s : session) (o : outcome) (s1 : session)
    (before evs : list event) (e : event) :
  o <> IterationLimitReached ->
  (o = Converged <-> clean = true) ->
  last evs = Some e -> e <> RESTORE ->
  iteration s1 = iteration s + 1 ->
  fixed_errors s1 = fixed_errors s ->
  (upcoming (disk s1) = upcoming (disk s) -> disk s1 = disk s) ->
  (next_write (disk s) = write_completes -> disk s1 = disk s) ->
  printed s1 = printed s ++ before ->
  turn_result max_iterations clean s (break max_iterations o s1 evs).
Proof.
  intros Ho Hclean Hlast He Hit Hfix Hdisk Hnext Hprinted. unfold break.
  destruct (after_loop_counters max_iterations (print s1 evs)) as (H1 & H2 & H3).
  apply (turn_ends _ _ _ o _ (before ++ evs) e); try assumption.
  - now rewrite last_app, Hlast.
  - now rewrite H1.
  - now rewrite H2.
  - rewrite H3. exact Hdisk.
  - rewrite H3. exact Hnext.
  - rewrite after_loop_printed. cbn [print printed iteration].
    rewrite Hprinted, Hit. now rewrite <- !app_assoc.
Qed.

Lemma break_turn (clean : bool) (s : session) (o : outcome) (s1 : session)
    (before evs : list event) (e : event) :
  o <> IterationLimitReached ->
  (o = Converged <-> clean = true) ->
  last evs = Some e -> e <> RESTORE ->
  iteration s1 = iteration s + 1 ->
  fixed_errors s1 = fixed_errors s ->
  disk s1 = disk s ->
  printed s1 = printed s ++ before ->
  turn_result max_iterations clean s (break max_iterations o s1 evs).
Proof.
  intros Ho Hclean Hlast He Hit Hfix Hdisk Hprinted.
  now apply (break_turn_file clean s o s1 before evs e).
Qed.

Lemma loop_body_turn (s : session) :
  turn_result max_iterations (next_run_clean s) s (body s).
Proof.
  unfold loop_body, run_is_clean. cbn [iteration disk].
  set (stderr := default "" (run_and_capture_error (iteration s + 1) (disk s))).
  assert (Hne : forall o, o <> Converged ->
                          o = Converged <-> false = true)
    by (intros o Ho; split; [intros ->; now destruct Ho | discriminate]).
  destruct (negb (truthy_str stderr)).
  { assert (Hlast : exists e,
      last ([SUCCESS;
             COMPLETE (List.length (fixed_errors s)) (iteration s + 1 - 1)]
            ++ match fixed_errors s with
               | [] => []
               | _ :: _ => [FIXED (fixed_errors s)]
               end) = Some e /\ e <> RESTORE)
      by (destruct (fixed_errors s); eexists; split;
          [reflexivity | discriminate | reflexivity | discriminate]).
    destruct Hlast as (e & Hlast & He).
    eapply (break_turn _ _ _ _ [ITERATION (iteration s + 1)] _ e);
      try reflexivity; try assumption; try discriminate; split; reflexivity. }
  destruct (parse_error _ _ _ _) as [[[et ef] el] full_error].
  destruct et as [et|];
    [| eapply (break_turn _ _ _ _ [ITERATION (iteration s + 1)]);
       try reflexivity; try discriminate; now apply Hne].
  destruct (truthy_str et);
    [| eapply (break_turn _ _ _ _ [ITERATION (iteration s + 1)]);
       try reflexivity; try discriminate; now apply Hne].
  destruct ef as [ef|];
    [| eapply (break_turn _ _ _ _ [ITERATION (iteration s + 1)]);
       try reflexivity; try discriminate; now apply Hne].
  destruct el as [el|];
    [| eapply (break_turn _ _ _ _ [ITERATION (iteration s + 1)]);
       try reflexivity; try discriminate; now apply Hne].
  destruct (truthy_str ef && negb (el =? 0));
    [| eapply (break_turn _ _ _ _ [ITERATION (iteration s + 1)]);
       try reflexivity; try discriminate; now apply Hne].
  destruct (negb (String.eqb (abspath ef) (abspath script_path)));
    [eapply (break_turn _ _ _ _ [ITERATION (iteration s + 1)]);
     try reflexivity; try discriminate; now apply Hne |].
  destruct (bool_decide _).
  { eapply (break_turn _ _ _ _
              [ITERATION (iteration s + 1);
               DETECTED (error_descriptor et el)]);
      try reflexivity; try discriminate; [now apply Hne |].
    cbn [print printed]. now rewrite <- app_assoc. }
  destruct (fix_error _ _ _ _ _ _) as [[ok w'] evs] eqn:Hfix.
  destruct ok.
  - now apply (turn_goes_on _ _ _ _ (et, el)).
  - apply fix_error_false_world in Hfix as [Hkept Hnext].
    cbn [print disk] in Hkept, Hnext.
    eapply (break_turn_file _ _ _ _
              [ITERATION (iteration s + 1);
               DETECTED (error_descriptor et el)] _ (FAILED full_error));
      try reflexivity; try discriminate; try assumption;
      [now apply Hne | apply last_snoc |].
    cbn [print printed]. now rewrite <- app_assoc.
Qed.

(** The state after [n] steps, with what it has on record. *)
Lemma run_session_records (w : world) (n : nat) :
  match run_ n w with
  | Running s => List.length (fixed_errors s) = iteration s
  | Finished IterationLimitReached s =>
      List.length (fixed_errors s) = iteration s
      /\ iteration s = max_iterations
  | Finished _ s => S (List.length (fixed_errors s)) = iteration s
  end.
Proof.
  induction n as [|n IH]; [reflexivity |].
  pose proof (run_session_counts ERROR_DATABASE abspath run_and_capture_error
                script_path max_iterations w n) as Hcount.
  unfold run_session in *. rewrite Nat.iter_succ.
  destruct (Nat.iter n _ _) as [s | o s]; [| exact IH].
  unfold step. destruct (iteration s <? max_iterations) eqn:Hlt.
  - destruct (loop_body_turn s)
      as [o s' evs e Ho _ _ _ Hit Hfix _ _ _ | s' sg _ Hit Hfix].
    + rewrite Hit, Hfix, IH. destruct o; try lia. now destruct Ho.
    + rewrite Hit, Hfix, length_app, IH. simpl. lia.
  - apply Nat.ltb_ge in Hlt.
    destruct (after_loop_counters max_iterations s) as (H1 & H2 & _).
    rewrite H1, H2. lia.
Qed.

End Turns.

(** X13: the number of patches on record equals the number of turns that
    did not end the session.  A session that ends on its [k]-th turn as
    Converged, Cycled or Unrecoverable has applied [k - 1] patches; one
    that exhausts the bound has applied as many patches as the bound. *)
Theorem patches_count_the_turns_that_went_on (ERROR_DATABASE : database)
    (abspath : string -> string)
    (run_and_capture_error : nat -> world -> option string)
    (script_path : string) (max_iterations : nat) (w : world) (n : nat) :
  match run_session ERROR_DATABASE abspath run_and_capture_error script_path
          max_iterations n w with
  | Running s => List.length (fixed_errors s) = iteration s /\ iteration s = n
  | Finished IterationLimitReached s =>
      List.length (fixed_errors s) = max_iterations
      /\ iteration s = max_iterations
  | Finished _ s => S (List.length (fixed_errors s)) = iteration s
  end.
Proof.
  pose proof (run_session_records ERROR_DATABASE abspath run_and_capture_error
                script_path max_iterations w n) as Hrec.
  pose proof (run_session_counts ERROR_DATABASE abspath run_and_capture_error
                script_path max_iterations w n) as Hcount.
  destruct (run_session _ _ _ _ _ _ _) as [s | o s].
  - split; [exact Hrec | apply Hcount].
  - destruct o; try exact Hrec. destruct Hrec as [H1 H2]. lia.
Qed.

Section EndOfSession.

Variable ERROR_DATABASE : database.
Variable abspath : string -> string.
Variable run_and_capture_error : nat -> world -> option string.
Variable script_path : string.
Variable max_iterations : nat.

Local Abbreviation step_ :=
  (step ERROR_DATABASE abspath run_and_capture_error script_path
     max_iterations).
Local Abbreviation run_ :=
  (run_session ERROR_DATABASE abspath run_and_capture_error script_path
     max_iterations).

(** The step that ends a session. *)
Lemma step_finished (s s' : session) (o : outcome) :
  step_ (Running s) = Finished o s' ->
  (upcoming (disk s') = upcoming (disk s) -> disk s' = disk s)
  /\ (next_write (disk s) = write_completes -> disk s' = disk s)
  /\ fixed_errors s' = fixed_errors s
  /\ (o = IterationLimitReached <-> max_iterations <= iteration s)
  /\ (o = Converged
      <-> iteration s < max_iterations
          /\ run_is_clean run_and_capture_error s = true)
  /\ ((max_iterations <= iteration s'
       /\ exists before, printed s' = before ++ [TIMEOUT; RESTORE])
      \/ (iteration s' < max_iterations
          /\ last (printed s') <> Some RESTORE)).
Proof.
  unfold step. destruct (iteration s <? max_iterations) eqn:Hlt.
  - apply Nat.ltb_lt in Hlt. intros Hbody.
    pose proof (loop_body_turn ERROR_DATABASE abspath run_and_capture_error
                  script_path max_iterations s) as Hturn.
    rewrite Hbody in Hturn.
    inversion Hturn
      as [o' s'' evs e Ho Hclean Hlast He Hit Hfix Hdisk Hnext Hprinted |];
      subst.
    split; [exact Hdisk |]. split; [exact Hnext |]. split; [exact Hfix |].
    split; [| split].
    + split; [intros ->; now destruct Ho | lia].
    + rewrite Hclean. tauto.
    + rewrite Hprinted, Hit. unfold timeout_report.
      destruct (max_iterations <=? iteration s + 1) eqn:Hb.
      * left. apply Nat.leb_le in Hb. split; [exact Hb |].
        exists (printed s ++ evs). now rewrite <- app_assoc.
      * right. apply Nat.leb_gt in Hb. split; [exact Hb |].
        rewrite app_nil_r, last_app, Hlast. now intros [= ->].
  - apply Nat.ltb_ge in Hlt. intros [= <- <-].
    destruct (after_loop_counters max_iterations s) as (H1 & H2 & H3).
    split; [intros _; exact H3 |]. split; [intros _; exact H3 |].
    split; [exact H2 |]. split; [| split].
    + tauto.
    + split; [discriminate | lia].
    + left. rewrite H1. split; [exact Hlt |].
      unfold after_loop. apply Nat.leb_le in Hlt. rewrite Hlt.
      now exists (printed s).
Qed.

Lemma run_session_step (w : world) (n : nat) :
  run_ (S n) w = step_ (run_ n w).
Proof. unfold run_session. apply Nat.iter_succ. Qed.

(** A finished session has printed the report of the bound exactly when
    it has made as many turns as the bound. *)
Lemma run_session_report (w : world) (n : nat) (o : outcome) (s : session) :
  run_ n w = Finished o s ->
  (max_iterations <= iteration s
   /\ exists before, printed s = before ++ [TIMEOUT; RESTORE])
  \/ (iteration s < max_iterations /\ last (printed s) <> Some RESTORE).
Proof.
  revert o s. induction n as [|n IH]; intros o s; [discriminate |].
  rewrite run_session_step.
  destruct (run_ n w) as [s0 | o0 s0] eqn:Hn.
  - intros Hstep. now apply step_finished in Hstep.
  - intros [= <- <-]. now apply (IH o0).
Qed.

End EndOfSession.

(** X14: the turn that ends a session records nothing: the list of
    applied patches is as the turn found it.  The file is as the turn found
    it too, unless a write of that turn raised: when the turn has used up no
    outcome of the file system, and so when the next write would have
    completed, the patches of the earlier turns are in the file as they
    were. *)
Theorem ending_turn_records_nothing (ERROR_DATABASE : database)
    (abspath : string -> string)
    (run_and_capture_error : nat -> world -> option string)
    (script_path : string) (max_iterations : nat) (w : world) (n : nat)
    (s s' : session) (o : outcome) :
  run_session ERROR_DATABASE abspath run_and_capture_error script_path
    max_iterations n w = Running s ->
  run_session ERROR_DATABASE abspath run_and_capture_error script_path
    max_iterations (S n) w = Finished o s' ->
  fixed_errors s' = fixed_errors s
  /\ (upcoming (disk s') = upcoming (disk s) -> disk s' = disk s)
  /\ (next_write (disk s) = write_completes -> disk s' = disk s).
Proof.
  intros Hn HSn. rewrite run_session_step, Hn in HSn.
  apply step_finished in HSn. tauto.
Qed.

Lemma ending_turn_records_nothing_witness :
  let run_ n :=
    run_session ERROR_DATABASE_excerpt (fun f => f) stubborn_run "app.py"
      default_max_iterations n (file_of_lines [ln "x = d['a']['b']"]) in
  fixed_errors (session_of (run_ 2)) = fixed_errors (session_of (run_ 1))
  /\ (upcoming (disk (session_of (run_ 2)))
      = upcoming (disk (session_of (run_ 1))) ->
      disk (session_of (run_ 2)) = disk (session_of (run_ 1)))
  /\ (next_write (disk (session_of (run_ 1))) = write_completes ->
      disk (session_of (run_ 2)) = disk (session_of (run_ 1))).
Proof.
  intros run_.
  apply (ending_turn_records_nothing ERROR_DATABASE_excerpt (fun f => f)
           stubborn_run "app.py" default_max_iterations
           (file_of_lines [ln "x = d['a']['b']"]) 1 _ _ Cycled).
  - vm_compute. reflexivity.
  - vm_compute. reflexivity.
Defined.

(** X15: a session ends as Converged exactly when the loop made one more
    turn and the run of the target in that turn reported nothing, and as
    IterationLimitReached exactly when the loop had already made as many
    turns as the bound. *)
Theorem session_outcome_characterised (ERROR_DATABASE : database)
    (abspath : string -> string)
    (run_and_capture_error : nat -> world -> option string)
    (script_path : string) (max_iterations : nat) (w : world) (n : nat)
    (s s' : session) (o : outcome) :
  run_session ERROR_DATABASE abspath run_and_capture_error script_path
    max_iterations n w = Running s ->
  run_session ERROR_DATABASE abspath run_and_capture_error script_path
    max_iterations (S n) w = Finished o s' ->
  (o = Converged
   <-> iteration s < max_iterations
       /\ run_is_clean run_and_capture_error s = true)
  /\ (o = IterationLimitReached <-> max_iterations <= iteration s).
Proof.
  intros Hn HSn. rewrite run_session_step, Hn in HSn.
  apply step_finished in HSn. tauto.
Qed.

Lemma session_outcome_characterised_witness :
  let run_ n :=
    run_session ERROR_DATABASE_excerpt (fun f => f) clean_run "app.py"
      default_max_iterations n (file_of_lines [ln "x = 1"]) in
  (Converged = Converged
   <-> iteration (session_of (run_ 0)) < default_max_iterations
       /\ run_is_clean clean_run (session_of (run_ 0)) = true)
  /\ (Converged = IterationLimitReached
      <-> default_max_iterations <= iteration (session_of (run_ 0))).
Proof.
  intros run_.
  apply (session_outcome_characterised ERROR_DATABASE_excerpt (fun f => f)
           clean_run "app.py" default_max_iterations
           (file_of_lines [ln "x = 1"]) 0 _ (session_of (run_ 1))).
  - reflexivity.
  - vm_compute. reflexivity.
Defined.

(** X16: a finished session has printed the report of the bound, TIMEOUT
    and RESTORE, exactly when it has made as many turns as the bound; this
    includes a session whose last allowed turn ended it as Converged,
    Cycled or Unrecoverable. *)
Theorem timeout_reported_iff_bound_reached (ERROR_DATABASE : database)
    (abspath : string -> string)
    (run_and_capture_error : nat -> world -> option string)
    (script_path : string) (max_iterations : nat) (w : world) (n : nat)
    (o : outcome) (s : session) :
  run_session ERROR_DATABASE abspath run_and_capture_error script_path
    max_iterations n w = Finished o s ->
  (exists before, printed s = before ++ [TIMEOUT; RESTORE])
  <-> max_iterations <= iteration s.
Proof.
  intros Hn.
  destruct (run_session_report _ _ _ _ _ _ _ _ _ Hn)
    as [[Hle Hrep] | [Hlt Hlast]].
  - tauto.
  - split; [| lia]. intros [before Hprinted]. exfalso. apply Hlast.
    rewrite Hprinted.
    change [TIMEOUT; RESTORE] with ([TIMEOUT] ++ [RESTORE]).
    rewrite app_assoc. apply last_snoc.
Qed.

(** With a bound of one turn, a target that runs without error ends the
    session as Converged and the report of the bound is printed as well. *)
Lemma timeout_reported_iff_bound_reached_witness :
  run_session ERROR_DATABASE_excerpt (fun f => f) clean_run "app.py" 1 1
    (file_of_lines [ln "x = 1"])
  = Finished Converged
      {| iteration := 1; fixed_errors := [];
         disk := file_of_lines [ln "x = 1"];
         printed := [ITERATION 1; SUCCESS; COMPLETE 0 0; TIMEOUT; RESTORE] |}
  /\ ((exists before,
         [ITERATION 1; SUCCESS; COMPLETE 0 0; TIMEOUT; RESTORE]
         = before ++ [TIMEOUT; RESTORE])
      <-> 1 <= 1).
Proof.
  assert (Hrun : run_session ERROR_DATABASE_excerpt (fun f => f) clean_run
                   "app.py" 1 1 (file_of_lines [ln "x = 1"])
                 = Finished Converged
                     {| iteration := 1; fixed_errors := [];
                        disk := file_of_lines [ln "x = 1"];
                        printed := [ITERATION 1; SUCCESS; COMPLETE 0 0;
                                    TIMEOUT; RESTORE] |})
    by (vm_compute; reflexivity).
  split; [exact Hrun |].
  exact (timeout_reported_iff_bound_reached _ _ _ _ _ _ _ _ _ Hrun).
Defined.

(** ** The ValueError entries *)

(** X17: of the two ValueError entries of the registry the second is the
    one in force.  A ValueError on a line without a call of [int] or
    [float] and without a call of [.split] is not patched, also when the
    line calls [max] or [min], for which the first entry has a pattern. *)
Theorem value_error_second_entry_in_force (w : world) (file_path : string)
    (line_number : nat) (error_message : string) (lines : list string)
    (target_line : string) :
  read_lines w = Some lines ->
  1 <= line_number ->
  lines !! (line_number - 1) = Some target_line ->
  re_search re_int_or_float_call target_line = false ->
  re_search re_split_call target_line = false ->
  ERROR_DATABASE_values !! "ValueError" = Some ValueError_patterns_second
  /\ fix_error ERROR_DATABASE_values w file_path "ValueError" line_number
       error_message
     = (false, w,
        [WARN_no_matching "ValueError" line_number; LINE (strip target_line)]).
Proof.
  intros Hread Hpos Htarget Hint Hsplit.
  assert (Hdb : ERROR_DATABASE_values !! "ValueError"
                = Some ValueError_patterns_second)
    by (unfold ERROR_DATABASE_values; apply lookup_insert_eq).
  split; [exact Hdb |].
  rewrite (fix_error_reaches_loop _ _ file_path _ _ error_message _ _ _
             Hdb Hread Hpos Htarget).
  unfold ValueError_patterns_second. cbn [try_patterns detect].
  rewrite Hint, Hsplit. reflexivity.
Qed.

Lemma value_error_second_entry_in_force_witness :
  (exists p, ValueError_patterns_first !! 0 = Some p
             /\ detect p (ln "top = max(scores)") = true)
  /\ ERROR_DATABASE_values !! "ValueError" = Some ValueError_patterns_second
  /\ fix_error ERROR_DATABASE_values (file_of_lines [ln "top = max(scores)"])
       "app.py" "ValueError" 1 "ValueError: max() arg is an empty sequence"
     = (false, file_of_lines [ln "top = max(scores)"],
        [WARN_no_matching "ValueError" 1; LINE (strip (ln "top = max(scores)"))]).
Proof.
  split.
  - eexists. split; [reflexivity | vm_compute; reflexivity].
  - apply (value_error_second_entry_in_force
             (file_of_lines [ln "top = max(scores)"]) "app.py" 1
             "ValueError: max() arg is an empty sequence"
             [ln "top = max(scores)"]).
    + vm_compute. reflexivity.
    + lia.
    + reflexivity.
    + vm_compute. reflexivity.
    + vm_compute. reflexivity.
Defined.

(** ** The UnboundLocalError handler *)

Lemma find_def_from_spec (lines : list string) (k : nat) (found : option nat) :
  find_def_from lines k = Some found ->
  match found with
  | Some i =>
      i < k
      /\ (exists header, lines !! i = Some header
                         /\ re_match def_header header = true)
      /\ forall j l, i < j < k -> lines !! j = Some l ->
                     re_match def_header l = false
  | None =>
      forall j l, j < k -> lines !! j = Some l -> re_match def_header l = false
  end.
Proof.
  revert found. induction k as [|k IH]; intros found; simpl.
  - intros [= <-]. intros j l Hj. lia.
  - destruct (lines !! k) as [lk|] eqn:Hk; [| intros [=]].
    destruct (re_match def_header lk) eqn:Hdef.
    + intros [= <-]. split; [lia |]. split; [now exists lk |].
      intros j l Hj. lia.
    + intros Hrest. specialize (IH found Hrest).
      destruct found as [i|].
      * destruct IH as (Hi & Hheader & Hnone).
        split; [lia |]. split; [exact Hheader |].
        intros j l Hj Hl. destruct (Nat.eq_dec j k) as [-> | Hne].
        -- rewrite Hk in Hl. now injection Hl as <-.
        -- apply (Hnone j l); [lia | exact Hl].
      * intros j l Hj Hl. destruct (Nat.eq_dec j k) as [-> | Hne].
        -- rewrite Hk in Hl. now injection Hl as <-.
        -- apply (IH j l); [lia | exact Hl].
Qed.

Lemma skip_docstring_bounds (quote_type : string) (rest : list string) (idx : nat) :
  idx <= skip_docstring quote_type rest idx <= idx + List.length rest.
Proof.
  revert idx. induction rest as [|l rest IH]; intros idx; simpl; [lia |].
  destruct (contains quote_type l); [lia |].
  specialize (IH (S idx)). lia.
Qed.

Lemma insertion_index_bounds (lines : list string) (func_line_idx : nat) :
  func_line_idx + 1 <= insertion_index lines func_line_idx
  /\ (func_line_idx < List.length lines ->
      insertion_index lines func_line_idx <= List.length lines).
Proof.
  unfold insertion_index.
  destruct (lines !! (func_line_idx + 1)) as [l|] eqn:Hl; [| lia].
  apply lookup_lt_Some in Hl.
  destruct (startswith (strip l) triple_dq || startswith (strip l) triple_sq);
    [| lia].
  destruct (2 <=? count (strip l) _); [lia |].
  pose proof (skip_docstring_bounds
                (if startswith (strip l) triple_dq then triple_dq else triple_sq)
                (drop (func_line_idx + 1 + 1) lines) (func_line_idx + 1 + 1)) as H.
  rewrite length_drop in H. lia.
Qed.

(** X18: when the UnboundLocalError handler applies, it only inserts one
    line.  The line goes below the nearest line at or above the failing
    line that opens a function (below the first line of the file when
    there is none), never past the end of the buffer; it initialises the
    variable named by the message, four columns deeper than that header;
    every line of the buffer is kept, in order. *)
Theorem unbound_local_patch_inserts_one_line (lines : list string)
    (line_number : nat) (indent error_msg : string) (lines' : list string) :
  _fix_unbound_local_error lines line_number indent error_msg = UL_True lines' ->
  exists var_name found header i,
    search_local_variable error_msg = Some var_name
    /\ find_def_from lines line_number = Some found
    /\ match found with
       | Some k =>
           k < line_number
           /\ re_match def_header header = true
           /\ forall j l, k < j < line_number -> lines !! j = Some l ->
                          re_match def_header l = false
       | None =>
           forall j l, j < line_number -> lines !! j = Some l ->
                       re_match def_header l = false
       end
    /\ lines !! (default 0 found) = Some header
    /\ default 0 found < i <= List.length lines
    /\ i = insertion_index lines (default 0 found)
    /\ lines' = take i lines ++ initializer_line header var_name :: drop i lines
    /\ List.length lines' = S (List.length lines).
Proof.
  unfold _fix_unbound_local_error. intros Hfix.
  destruct (search_local_variable error_msg) as [var_name|]; [| discriminate Hfix].
  destruct (find_def_from lines line_number) as [found|] eqn:Hfound;
    [| discriminate Hfix].
  destruct (already_initialized _ _ _ _); [discriminate Hfix |].
  destruct (lines !! (default 0 found)) as [header|] eqn:Hheader;
    [| discriminate Hfix].
  injection Hfix as <-.
  pose proof (lookup_lt_Some _ _ _ Hheader) as Hlt.
  destruct (insertion_index_bounds lines (default 0 found)) as [Hlo Hhi].
  specialize (Hhi Hlt).
  exists var_name, found, header, (insertion_index lines (default 0 found)).
  split; [reflexivity |]. split; [reflexivity |]. split.
  { pose proof (find_def_from_spec _ _ _ Hfound) as Hspec.
    destruct found as [k|]; [| exact Hspec].
    destruct Hspec as (Hk & (h & Hh & Hdef) & Hnone).
    simpl in Hheader. rewrite Hheader in Hh. injection Hh as <-. auto. }
  split; [exact Hheader |]. split; [lia |]. split; [reflexivity |].
  split; [reflexivity |].
  rewrite length_app. simpl. rewrite length_take, length_drop. lia.
Qed.

Lemma unbound_local_patch_inserts_one_line_witness :
  exists var_name found header i,
    search_local_variable unbound_message = Some var_name
    /\ find_def_from function_with_docstring 6 = Some found
    /\ match found with
       | Some k =>
           k < 6
           /\ re_match def_header header = true
           /\ forall j l, k < j < 6 -> function_with_docstring !! j = Some l ->
                          re_match def_header l = false
       | None =>
           forall j l, j < 6 -> function_with_docstring !! j = Some l ->
                       re_match def_header l = false
       end
    /\ function_with_docstring !! (default 0 found) = Some header
    /\ default 0 found < i <= List.length function_with_docstring
    /\ i = insertion_index function_with_docstring (default 0 found)
    /\ [ ln "import sys";
         ln "def total(items):";
         ln "    '''Sum of the items,";
         ln "    skipping nothing.'''";
         ln "    count = None  # Initialize to fix UnboundLocalError";
         ln "    for i in items:";
         ln "        count += i";
         ln "    return count" ]
       = take i function_with_docstring
         ++ initializer_line header var_name :: drop i function_with_docstring
    /\ List.length
         [ ln "import sys";
           ln "def total(items):";
           ln "    '''Sum of the items,";
           ln "    skipping nothing.'''";
           ln "    count = None  # Initialize to fix UnboundLocalError";
           ln "    for i in items:";
           ln "        count += i";
           ln "    return count" ]
       = S (List.length function_with_docstring).
Proof.
  apply (unbound_local_patch_inserts_one_line function_with_docstring 6
           "        " unbound_message).
  vm_compute. reflexivity.
Defined.

Lemma prefix_app (a b : string) : String.prefix a (a +:+ b) = true.
Proof.
  induction a as [|c a IH]; [now destruct b |].
  rewrite append_cons. simpl.
  destruct (ascii_dec c c) as [_ | Hne]; [exact IH | now destruct Hne].
Qed.

Lemma contains_prefix (sub s : string) :
  String.prefix sub s = true -> contains sub s = true.
Proof. intros H. destruct s; cbn [contains]; now rewrite H. Qed.

Lemma contains_app_r (sub a b : string) :
  contains sub b = true -> contains sub (a +:+ b) = true.
Proof.
  intros Hb. induction a as [|c a IH]; [exact Hb |].
  rewrite append_cons. cbn [contains]. rewrite IH. apply orb_true_r.
Qed.






(** ** The lines that a block patch splices in *)





(** ** The descriptor of a failure *)

Lemma all_chars_app (p : ascii -> bool) (a b : string) :
  all_chars p (a +:+ b) = all_chars p a && all_chars p b.
Proof.
  induction a as [|c a IH]; [reflexivity |].
  rewrite append_cons. simpl. rewrite IH. apply andb_assoc.
Qed.

Lemma all_chars_reverse (p : ascii -> bool) (s : string) :
  all_chars p (reverse s) = all_chars p s.
Proof.
  induction s as [|c s IH]; [reflexivity |].
  rewrite reverse_cons, all_chars_app, IH. simpl.
  rewrite andb_true_r. apply andb_comm.
Qed.

Lemma span_while_app (p : ascii -> bool) (a b : string) :
  all_chars p a = true ->
  match b with
  | EmptyString => True
  | String c _ => p c = false
  end ->
  span_while p (a +:+ b) = (a, b).
Proof.
  intros Ha Hb. induction a as [|c a IH].
  - change ("" +:+ b) with b. destruct b as [|c b]; [reflexivity |].
    simpl. now rewrite Hb.
  - simpl in Ha. apply andb_true_iff in Ha as [Hc Ha].
    rewrite append_cons. simpl. rewrite Hc, (IH Ha). reflexivity.
Qed.

Lemma string_of_uint_digits (d : Decimal.uint) :
  all_chars is_digit (NilEmpty.string_of_uint d) = true.
Proof. induction d; simpl; try reflexivity; exact IHd. Qed.

Lemma str_of_nat_digits (n : nat) : all_chars is_digit (str_of_nat n) = true.
Proof.
  unfold str_of_nat, NilZero.string_of_uint.
  destruct (Nat.to_uint n); try reflexivity; apply string_of_uint_digits.
Qed.

Lemma to_uint_not_nil (n : nat) : Nat.to_uint n <> Decimal.Nil.
Proof.
  pose proof (Unsigned.to_of (Nat.to_uint n)) as H.
  rewrite Unsigned.of_to in H. rewrite H. apply unorm_nonnil.
Qed.

Lemma str_of_nat_inj (a b : nat) : str_of_nat a = str_of_nat b -> a = b.
Proof.
  unfold str_of_nat. intros H.
  apply Unsigned.to_uint_inj.
  pose proof (NilZero.usu _ (to_uint_not_nil a)) as Ha.
  pose proof (NilZero.usu _ (to_uint_not_nil b)) as Hb.
  rewrite H, Hb in Ha. now injection Ha.
Qed.

Lemma reverse_inj (a b : string) : reverse a = reverse b -> a = b.
Proof.
  intros H. rewrite <- (reverse_involutive a), <- (reverse_involutive b).
  now rewrite H.
Qed.

(** X21: the descriptor under which a patch is recorded determines the
    failure class and the line: two diagnostics have the same descriptor
    only if they have the same class and the same line, so that a session
    is ended as Cycled only for a signature that has been patched
    before. *)
Theorem error_descriptor_determines_signature (error_type1 error_type2 : string)
    (error_line1 error_line2 : nat) :
  error_descriptor error_type1 error_line1
    = error_descriptor error_type2 error_line2 ->
  error_type1 = error_type2 /\ error_line1 = error_line2.
Proof.
  unfold error_descriptor. intros H.
  apply (f_equal reverse) in H.
  rewrite !reverse_app in H.
  change (reverse " at line ") with " enil ta " in H.
  rewrite !append_assoc in H.
  assert (Hspan : forall t n,
    span_while is_digit
      (reverse (str_of_nat n) +:+ " enil ta " +:+ reverse t)
    = (reverse (str_of_nat n), " enil ta " +:+ reverse t)).
  { intros t n. apply span_while_app.
    - rewrite all_chars_reverse. apply str_of_nat_digits.
    - reflexivity. }
  pose proof (Hspan error_type1 error_line1) as H1.
  rewrite H, Hspan in H1. injection H1 as Hline Htype.
  split.
  - apply reverse_inj. symmetry. exact Htype.
  - apply str_of_nat_inj, reverse_inj. now symmetry.
Qed.

Lemma error_descriptor_determines_signature_witness :
  "KeyError" = "KeyError" /\ 12 = 12.
Proof.
  apply (error_descriptor_determines_signature "KeyError" "KeyError" 12 12).
  reflexivity.
Defined.

(** ** Reading a frame of the traceback *)

Lemma strip_prefix_app (p s : string) : strip_prefix p (p +:+ s) = Some s.
Proof.
  induction p as [|c p IH]; [reflexivity |].
  rewrite append_cons. simpl. now rewrite Ascii.eqb_refl.
Qed.

Lemma leftmost_after_spaces {A : Type} (m : string -> option A) (k : nat)
    (s : string) (a : A) :
  (forall j t, m (spaces (S j) +:+ t) = None) ->
  m s = Some a ->
  leftmost m (spaces k +:+ s) = Some (spaces k, a).
Proof.
  intros Hskip Hs. induction k as [|k IH].
  - change (spaces 0 +:+ s) with s. destruct s; simpl; now rewrite Hs.
  - pose proof (Hskip k s) as Hnone.
    change (spaces (S k) +:+ s) with (String " " (spaces k +:+ s)) in *.
    cbn [leftmost]. rewrite Hnone, IH. reflexivity.
Qed.

(** X22: a line of the standard shape of a traceback frame, that is some
    indentation, the word File, a path between double quotes, a comma, the
    word line and a decimal number, is read by [parse_error] as the frame
    of that path and of that number, whatever follows the number. *)
Theorem frame_of_line_reads_standard_frame (k : nat)
    (file_path digits rest : string) :
  file_path <> "" ->
  all_chars (fun c => negb (Ascii.eqb c DQ)) file_path = true ->
  digits <> "" ->
  all_chars is_digit digits = true ->
  match rest with
  | EmptyString => True
  | String c _ => is_digit c = false
  end ->
  frame_of_line
    (spaces k +:+ ("File " +:+ dq) +:+ file_path
     +:+ (dq +:+ ", line ") +:+ digits +:+ rest)
  = Some (file_path, int digits).
Proof.
  intros Hpath Hnoquote Hdigits Hall Hrest.
  set (tail := (dq +:+ ", line ") +:+ digits +:+ rest).
  assert (Hat : frame_at (("File " +:+ dq) +:+ file_path +:+ tail)
                = Some (file_path, int digits)).
  { unfold frame_at. rewrite strip_prefix_app. cbn [mbind option_bind].
    rewrite (span_while_app _ file_path tail Hnoquote) by reflexivity.
    apply String.eqb_neq in Hpath. rewrite Hpath.
    unfold tail. rewrite strip_prefix_app. cbn [mbind option_bind].
    rewrite (span_while_app _ digits rest Hall Hrest).
    apply String.eqb_neq in Hdigits. now rewrite Hdigits. }
  unfold frame_of_line.
  assert (Hfile : contains ("File " +:+ dq)
                    (spaces k +:+ ("File " +:+ dq) +:+ file_path +:+ tail) = true)
    by (apply contains_app_r, contains_prefix, prefix_app).
  assert (Hline : contains ", line "
                    (spaces k +:+ ("File " +:+ dq) +:+ file_path +:+ tail) = true).
  { do 3 apply contains_app_r. unfold tail.
    change (dq +:+ ", line ") with (dq +:+ (", line " +:+ "")).
    rewrite !append_assoc. apply contains_app_r, contains_prefix, prefix_app. }
  rewrite Hfile, Hline. cbn [andb].
  rewrite (leftmost_after_spaces frame_at k _ (file_path, int digits)).
  - reflexivity.
  - intros j t. reflexivity.
  - exact Hat.
Qed.

Lemma frame_of_line_reads_standard_frame_witness :
  frame_of_line
    (spaces 2 +:+ ("File " +:+ dq) +:+ "/home/u/app.py"
     +:+ (dq +:+ ", line ") +:+ "0412" +:+ ", in <module>")
  = Some ("/home/u/app.py", int "0412").
Proof.
  apply frame_of_line_reads_standard_frame;
    try discriminate; vm_compute; reflexivity.
Defined.
